(** * ps-tree: descendants of a process, from the process table

    A shallow embedding of [src/index.js] (the [childrenOfPid] query, its
    line parser, [parseCsvLine], [normalizeHeader] and the tree builder
    passed to [es.writeArray]) and the properties its specification states.

    JavaScript strings are modelled as [string]: a sequence of code units,
    here restricted to the Latin-1 range; the steps taken for a POSIX data
    line, where code units beyond that range matter, are also given on
    16-bit code units (module [Utf16]).  JavaScript objects used as
    dictionaries ([parents], [row]) are modelled as the finite map of their
    own properties together with what they inherit from [Object.prototype]. *)

From Stdlib Require Import String Ascii List Bool Arith Lia DecimalString.
From stdpp Require Import gmap strings list.

Local Open Scope string_scope.
Local Open Scope list_scope.

(** ** The JavaScript runtime the program relies on *)

Module JS.

(** The property names every object literal [{}] inherits from
    [Object.prototype].  Each of them holds a function (or, for
    [__proto__], yields the prototype object): a truthy value. *)
Definition objectPrototypeKeys : list string :=
  [ "constructor"; "__defineGetter__"; "__defineSetter__"; "hasOwnProperty";
    "__lookupGetter__"; "__lookupSetter__"; "isPrototypeOf";
    "propertyIsEnumerable"; "toString"; "valueOf"; "__proto__";
    "toLocaleString" ].

Definition inherited (k : string) : bool :=
  bool_decide (k ∈ objectPrototypeKeys).

(** [if (o[k])] for an object [o = {}] whose own properties hold booleans:
    the own property when there is one, the inherited one otherwise. *)
Definition truthy (o : gmap string bool) (k : string) : bool :=
  match o !! k with
  | Some b => b
  | None => inherited k
  end.

(** [o[k] = true].  The [__proto__] setter ignores a value that is not an
    object, so that assignment leaves [o] as it is. *)
Definition assignTrue (o : gmap string bool) (k : string) : gmap string bool :=
  if String.eqb k "__proto__" then o else <[k:=true]> o.

(** [row[k] = v] for a string [v], same remark. *)
Definition assign (o : gmap string string) (k v : string) : gmap string string :=
  if String.eqb k "__proto__" then o else <[k:=v]> o.

(** The property key [o[proc.name]] indexes with: the string held by the
    property, or ["undefined"] when [proc] has no such property. *)
Definition propertyKey (proc : gmap string string) (name : string) : string :=
  match proc !! name with
  | Some v => v
  | None => "undefined"
  end.

(** Decimal digits; [numeric] below tells the decimal strings, the form
    PIDs have in the process table. *)
Definition isDigit (c : ascii) : bool :=
  (48 <=? nat_of_ascii c)%nat && (nat_of_ascii c <=? 57)%nat.

(** *** Strings *)

(** [WhiteSpace] and [LineTerminator] code units (what [trim] strips and
    [\s] matches): TAB, LF, VT, FF, CR, SP and NBSP. *)
Definition isWhiteSpace (c : ascii) : bool :=
  bool_decide (nat_of_ascii c ∈ [9; 10; 11; 12; 13; 32; 160]%nat).

(** The code units [.] does not match: LF and CR. *)
Definition isLineTerminator (c : ascii) : bool :=
  bool_decide (nat_of_ascii c ∈ [10; 13]%nat).

Definition notWhiteSpace (c : ascii) : bool := negb (isWhiteSpace c).
Definition dot (c : ascii) : bool := negb (isLineTerminator c).

Fixpoint all (p : ascii → bool) (s : string) : bool :=
  match s with
  | EmptyString => true
  | String c s' => p c && all p s'
  end.

Definition numeric (s : string) : bool :=
  negb (String.eqb s "") && all isDigit s.

(** The longest prefix of [s] whose code units satisfy [p], and the rest. *)
Fixpoint span (p : ascii → bool) (s : string) : string * string :=
  match s with
  | EmptyString => (EmptyString, EmptyString)
  | String c s' =>
      if p c then let r := span p s' in (String c r.1, r.2)
      else (EmptyString, s)
  end.

Fixpoint strTake (k : nat) (s : string) : string :=
  match k, s with
  | S k', String c s' => String c (strTake k' s')
  | _, _ => EmptyString
  end.

Fixpoint strDrop (k : nat) (s : string) : string :=
  match k, s with
  | S k', String _ s' => strDrop k' s'
  | _, _ => s
  end.

Definition trimStart (s : string) : string := (span isWhiteSpace s).2.

Fixpoint trimEnd (s : string) : string :=
  match s with
  | EmptyString => EmptyString
  | String c s' =>
      let t := trimEnd s' in
      if isWhiteSpace c && String.eqb t "" then EmptyString else String c t
  end.

(** [s.trim()]. *)
Definition trim (s : string) : string := trimEnd (trimStart s).

(** [s.includes(sub)]. *)
Fixpoint includes (sub s : string) : bool :=
  String.prefix sub s ||
  match s with
  | EmptyString => false
  | String _ s' => includes sub s'
  end.

(** [s.split(/\s+/)]: [cur] is the piece being read, [inSep] tells that
    the previous code unit belonged to a separator. *)
Fixpoint splitFrom (cur : string) (inSep : bool) (s : string) : list string :=
  match s with
  | EmptyString => [cur]
  | String c s' =>
      if isWhiteSpace c
      then if inSep then splitFrom cur true s'
           else cur :: splitFrom EmptyString true s'
      else splitFrom (cur +:+ String c EmptyString) false s'
  end.

Definition splitWhiteSpace (s : string) : list string :=
  splitFrom EmptyString false s.

(** *** Regular expressions

    The fragment the program uses: an anchored sequence of character
    classes, each under a greedy [*] or [+], some of them capturing.
    Matching is the backtracking one of the language: each atom first
    takes the longest run it can and gives code units back one at a
    time when the rest of the pattern fails. *)
Record Atom := mkAtom { cls : ascii → bool; atLeast : nat; capturing : bool }.

(** Try the lengths [k], [k - 1], ... down to [atLeast] and keep the
    first one for which [attempt] finds a match. *)
Fixpoint backtrack (atLeast : nat) (attempt : nat → option (list string))
    (k : nat) : option (list string) :=
  if (k <? atLeast)%nat then None
  else match attempt k with
       | Some groups => Some groups
       | None =>
           match k with
           | O => None
           | S k' => backtrack atLeast attempt k'
           end
       end.

(** The captured groups when [atoms] followed by [$] matches from the
    start of [s]. *)
Fixpoint matchFrom (atoms : list Atom) (s : string) : option (list string) :=
  match atoms with
  | [] => if String.eqb s "" then Some [] else None
  | a :: atoms' =>
      backtrack (atLeast a)
        (λ k, match matchFrom atoms' (strDrop k s) with
              | Some groups =>
                  Some (if capturing a then strTake k s :: groups else groups)
              | None => None
              end)
        (String.length (span (cls a) s).1)
  end.


(** [n.toString()] for a number that holds a non-negative integer below
    [2^53]: its decimal digits.  The definition says nothing of the code
    for a larger [n]: no number holds such an integer exactly in general,
    and from [10^21] the conversion prints an exponent. *)
Definition numberToString (n : N) : string :=
  NilZero.string_of_uint (N.to_uint n).

End JS.

(** ** Rows *)

(** A row is the object the line parser builds: its own properties. *)
Abbreviation Row := (gmap string string).

Definition PPID (proc : Row) : string := JS.propertyKey proc "PPID".
Definition PID (proc : Row) : string := JS.propertyKey proc "PID".

(** The record [{PPID, PID, STAT, COMMAND}]. *)
Definition mkRow (ppid pid stat command : string) : Row :=
  JS.assign (JS.assign (JS.assign (JS.assign ∅ "PPID" ppid) "PID" pid)
               "STAT" stat) "COMMAND" command.

(** ** [normalizeHeader] *)

Definition normalizeHeader (str : string) : string :=
  if String.eqb str "Name" then "COMMAND"
  else if String.eqb str "COMM" then "COMMAND"
  else if String.eqb str "ParentProcessId" then "PPID"
  else if String.eqb str "ProcessId" then "PID"
  else if String.eqb str "Status" then "STAT"
  else str.

(** ** [parseCsvLine] *)

Definition quote : ascii := "034"%char.
Definition comma : ascii := ","%char.

(** The [for (let c of line)] loop, on the loop's three variables. *)
Fixpoint parseCsvFrom (fields : list string) (current : string)
    (inQuote : bool) (line : string) : list string :=
  match line with
  | EmptyString => fields ++ [current]
  | String c line' =>
      if Ascii.eqb c quote then parseCsvFrom fields current (negb inQuote) line'
      else if Ascii.eqb c comma && negb inQuote
           then parseCsvFrom (fields ++ [current]) EmptyString inQuote line'
           else parseCsvFrom fields (current +:+ String c EmptyString) inQuote line'
  end.

Definition parseCsvLine (line : string) : list string :=
  parseCsvFrom [] EmptyString false line.

(** *** Comma-separated lines, as the specification describes them *)

(** A cell is a value, written between quotes or bare. *)
Definition noQuote (s : string) : bool :=
  JS.all (λ c, negb (Ascii.eqb c quote)) s.
Definition noComma (s : string) : bool :=
  JS.all (λ c, negb (Ascii.eqb c comma)) s.

Definition wellFormedCell (cell : bool * string) : Prop :=
  noQuote cell.2 = true ∧ (cell.1 = false → noComma cell.2 = true).

Definition renderCell (cell : bool * string) : string :=
  if cell.1 then String quote (cell.2 +:+ String quote EmptyString) else cell.2.

Fixpoint renderLine (cells : list (bool * string)) : string :=
  match cells with
  | [] => EmptyString
  | [cell] => renderCell cell
  | cell :: cells' => renderCell cell +:+ String comma (renderLine cells')
  end.

(** The commas of a line that separate fields: those met outside quotes,
    where each quote switches between outside and inside. *)
Fixpoint separators (inQuote : bool) (line : string) : nat :=
  match line with
  | EmptyString => 0
  | String c line' =>
      if Ascii.eqb c quote then separators (negb inQuote) line'
      else if Ascii.eqb c comma
           then if inQuote then separators inQuote line'
                else S (separators inQuote line')
           else separators inQuote line'
  end.

(** The text of a line: what is left without its quotes and separators. *)
Fixpoint fieldText (inQuote : bool) (line : string) : string :=
  match line with
  | EmptyString => EmptyString
  | String c line' =>
      if Ascii.eqb c quote then fieldText (negb inQuote) line'
      else if Ascii.eqb c comma
           then if inQuote then String c (fieldText inQuote line')
                else fieldText inQuote line'
           else String c (fieldText inQuote line')
  end.

(** Whether the end of [line] is inside a quoted field, for a line that
    starts inside one or not. *)
Fixpoint quoteState (inQuote : bool) (line : string) : bool :=
  match line with
  | EmptyString => inQuote
  | String c line' =>
      quoteState (if Ascii.eqb c quote then negb inQuote else inQuote) line'
  end.

(** The names the headers have before [normalizeHeader]. *)
Definition nativeHeaders : list string :=
  ["Name"; "COMM"; "ParentProcessId"; "ProcessId"; "Status"].

(** ** The line parser (the callback given to [es.map]) *)

(** [/^\s*(\d+)\s+(\d+)\s+(\S+)\s+(.+)$/] *)
Definition psPattern : list JS.Atom :=
  [ JS.mkAtom JS.isWhiteSpace 0 false;
    JS.mkAtom JS.isDigit 1 true;
    JS.mkAtom JS.isWhiteSpace 1 false;
    JS.mkAtom JS.isDigit 1 true;
    JS.mkAtom JS.isWhiteSpace 1 false;
    JS.mkAtom JS.notWhiteSpace 1 true;
    JS.mkAtom JS.isWhiteSpace 1 false;
    JS.mkAtom JS.dot 1 true ].

(** *** Lines of the POSIX table, as the specification describes them *)

(** A non-empty run of code units of one class. *)
Definition run (p : ascii → bool) (s : string) : Prop :=
  s ≠ EmptyString ∧ JS.all p s = true.

Definition startsWith (p : ascii → bool) (s : string) : bool :=
  match s with
  | EmptyString => false
  | String c _ => p c
  end.

Fixpoint endsWith (p : ascii → bool) (s : string) : bool :=
  match s with
  | EmptyString => false
  | String c EmptyString => p c
  | String _ s' => endsWith p s'
  end.

(** [PsLine t ppid pid stat command]: [t] is made of two tokens of
    digits, a third token, and a remainder that starts at its first code
    unit that is not white space and holds no line terminator. *)
Definition PsLine (t ppid pid stat command : string) : Prop :=
  ∃ w1 w2 w3,
    t = ppid +:+ w1 +:+ pid +:+ w2 +:+ stat +:+ w3 +:+ command ∧
    run JS.isDigit ppid ∧ run JS.isWhiteSpace w1 ∧
    run JS.isDigit pid ∧ run JS.isWhiteSpace w2 ∧
    run JS.notWhiteSpace stat ∧ run JS.isWhiteSpace w3 ∧
    run JS.dot command ∧ startsWith JS.isWhiteSpace command = false.

Definition carriageReturn : ascii := "013"%char.

(** [match ? match.slice(1) : []] *)
Definition psColumns (trimmedLine : string) : list string :=
  match JS.matchFrom psPattern trimmedLine with
  | Some groups => groups
  | None => []
  end.

(** [columns[i] || ''] *)
Definition orEmpty (v : option string) : string :=
  match v with
  | Some s => s
  | None => ""
  end.

(** [headers.forEach((header, i) => { row[header] = columns[i] || '' })],
    from index [i] on. *)
Fixpoint fillRow (i : nat) (headers columns : list string) (row : Row) : Row :=
  match headers with
  | [] => row
  | header :: headers' =>
      fillRow (S i) headers' columns (JS.assign row header (orEmpty (columns !! i)))
  end.

(** What the callback hands to [cb]: [cb()], [cb(null, row)] or [cb(err)]. *)
Inductive MapResult :=
| Drop
| Emit (row : Row)
| Raise (err : string).

#[global] Instance MapResult_eq_dec : EqDecision MapResult.
Proof. solve_decision. Defined.

(** One call of the callback: the new value of [headers] and the answer. *)
Definition lineParser (isWindows : bool) (headers : option (list string))
    (line : string) : option (list string) * MapResult :=
  let trimmedLine := JS.trim line in
  if (String.length trimmedLine =? 0)%nat || JS.includes "----" trimmedLine
  then (headers, Drop)
  else
    match headers with
    | None =>
        let rawHeaders :=
          if isWindows then parseCsvLine trimmedLine
          else JS.splitWhiteSpace trimmedLine in
        (Some (map normalizeHeader rawHeaders), Drop)
    | Some hs =>
        let columns :=
          if isWindows then parseCsvLine trimmedLine else psColumns trimmedLine in
        if (length columns <? length hs)%nat then (headers, Drop)
        else (headers, Emit (fillRow 0 hs columns ∅))
    end.

(** The lines the specification calls malformed, given the value
    [headers] has when the line arrives: empty once trimmed, holding a run
    of dashes, not matching the pattern of a POSIX data line, or with fewer
    columns than there are headers. *)
Definition Malformed (isWindows : bool) (headers : option (list string))
    (line : string) : Prop :=
  let trimmedLine := JS.trim line in
  String.length trimmedLine = 0%nat ∨
  JS.includes "----" trimmedLine = true ∨
  ∃ hs, headers = Some hs ∧
    ((isWindows = false ∧ JS.matchFrom psPattern trimmedLine = None) ∨
     (length (if isWindows then parseCsvLine trimmedLine
              else psColumns trimmedLine) < length hs)%nat).

(** ** The tree builder (the callback given to [es.writeArray]) *)

Record Scan := mkScan { parents : gmap string bool; children : list Row }.

(** The body of [ps.forEach]. *)
Definition visit (st : Scan) (proc : Row) : Scan :=
  if JS.truthy (parents st) (PPID proc)
  then mkScan (JS.assignTrue (parents st) (PID proc)) (children st ++ [proc])
  else st.

(** [parents = {}; children = []; parents[pid] = true]. *)
Definition seed (pid : string) : Scan := mkScan (JS.assignTrue ∅ pid) [].

Definition scan (pid : string) (ps : list Row) : Scan :=
  fold_left visit ps (seed pid).

Definition treeBuilder (pid : string) (ps : list Row) : list Row :=
  children (scan pid ps).

(** What the completion handler is called with: [callback(err, results)]. *)
Inductive Completion :=
| Results (results : list Row)
| Failure (err : string).

#[global] Instance Completion_eq_dec : EqDecision Completion.
Proof. solve_decision. Defined.

(** [function (err, ps) { ...; callback(null, children) }]. *)
Definition onArray (pid : string) (ps : list Row) : Completion :=
  Results (treeBuilder pid ps).

(** ** The pipeline [es.connect(stdout, es.split(), es.map(..), es.writeArray(..))] *)

(** [es.map] over the lines, threading [headers]; a raised error ends the
    stream and reaches the handler through [.on('error', callback)]. *)
Fixpoint mapLines (isWindows : bool) (headers : option (list string))
    (lines : list string) : list Row + string :=
  match lines with
  | [] => inl []
  | line :: lines' =>
      match lineParser isWindows headers line with
      | (headers', Drop) => mapLines isWindows headers' lines'
      | (headers', Emit row) =>
          match mapLines isWindows headers' lines' with
          | inl rows => inl (row :: rows)
          | inr err => inr err
          end
      | (_, Raise err) => inr err
      end
  end.

(** Once read, the headers are a non-empty list. *)
Definition headersRead (headers : option (list string)) : Prop :=
  ∀ hs, headers = Some hs → hs ≠ [].

(** The value of [headers] after the callback has seen [lines]. *)
Definition headersAfter (isWindows : bool) (headers : option (list string))
    (lines : list string) : option (list string) :=
  fold_left (λ hs line, (lineParser isWindows hs line).1) lines headers.

Definition pipeline (isWindows : bool) (pid : string) (lines : list string)
    : Completion :=
  match mapLines isWindows None lines with
  | inl ps => onArray pid ps
  | inr err => Failure err
  end.

(** ** [childrenOfPid] *)

Inductive Value :=
| VUndefined
| VNull
| VBoolean (b : bool)
| VNumber (n : N)
| VString (s : string)
| VObject
| VFunction.

Definition typeof (v : Value) : string :=
  match v with
  | VUndefined => "undefined"
  | VNull => "object"
  | VBoolean _ => "boolean"
  | VNumber _ => "number"
  | VString _ => "string"
  | VObject => "object"
  | VFunction => "function"
  end.

(** [parents[pid]]: the property key a value stands for. *)
Definition toPropertyKey (v : Value) : string :=
  match v with
  | VUndefined => "undefined"
  | VNull => "null"
  | VBoolean b => if b then "true" else "false"
  | VNumber n => JS.numberToString n
  | VString s => s
  | VObject => "[object Object]"
  | VFunction => "function () {}"
  end.

Record Spawn := mkSpawn { command : string; args : list string }.

#[global] Instance Spawn_eq_dec : EqDecision Spawn.
Proof. solve_decision. Defined.

Definition processLister (isWindows : bool) : Spawn :=
  if isWindows
  then mkSpawn "powershell.exe"
         ["Get-CimInstance -Class Win32_Process | Select-Object -Property ParentProcessId,ProcessId,Status,Name | ConvertTo-Csv -NoTypeInformation"]
  else mkSpawn "ps" ["-A"; "-o"; "ppid,pid,stat,comm"].

(** A call either throws, or returns having spawned the lister; the
    handler is then called once the lines of its output have been read. *)
Inductive Outcome :=
| Throws (spawned : list Spawn) (message : string)
| Returns (spawned : list Spawn) (completion : Completion).

#[global] Instance Outcome_eq_dec : EqDecision Outcome.
Proof. solve_decision. Defined.

(** [stdout] is the output of the lister, split into lines by [es.split()]. *)
Definition childrenOfPid (isWindows : bool) (stdout : list string)
    (pid callback : Value) : Outcome :=
  if negb (String.eqb (typeof callback) "function")
  then Throws [] "childrenOfPid(pid, callback) expects callback"
  else
    (* for a number, [pid.toString()] is the key the number stands for *)
    let pid := if String.eqb (typeof pid) "number"
               then VString (toPropertyKey pid) else pid in
    Returns [processLister isWindows]
            (pipeline isWindows (toPropertyKey pid) stdout).

(** ** Descendants, as the specification defines them *)

(** [Descendant root ps p]: following parent-to-child edges of the table
    [ps] one or more times from [root] reaches [p]. *)
Inductive Descendant (root : string) (ps : list Row) : string → Prop :=
| descendant_child proc :
    proc ∈ ps → PPID proc = root → Descendant root ps (PID proc)
| descendant_step proc :
    proc ∈ ps → Descendant root ps (PPID proc) → Descendant root ps (PID proc).

(** Zero or more times. *)
Definition Reachable (root : string) (ps : list Row) (p : string) : Prop :=
  p = root ∨ Descendant root ps p.

(** [Selects P l l']: [l'] is [l] restricted to the elements that satisfy
    [P], in the order of [l]. *)
Inductive Selects {A} (P : A → Prop) : list A → list A → Prop :=
| selects_nil : Selects P [] []
| selects_keep x l l' : P x → Selects P l l' → Selects P (x :: l) (x :: l')
| selects_skip x l l' : ¬ P x → Selects P l l' → Selects P (x :: l) l'.

(** Parents before children: the PPID of each row is the root or the PID
    of a row earlier in the sequence. *)
Definition ParentsFirst (root : string) (ps : list Row) : Prop :=
  ∀ i proc, ps !! i = Some proc →
    PPID proc = root ∨ ∃ j parent, (j < i)%nat ∧ ps !! j = Some parent ∧ PID parent = PPID proc.

(** The test [trimmedLine.length === 0 || trimmedLine.includes('----')]
    of the line parser. *)
Definition skipped (line : string) : bool :=
  (String.length (JS.trim line) =? 0)%nat || JS.includes "----" (JS.trim line).

(** ** The listings, as the listers print them *)

(** A process of the table: parent, PID, status and command. *)
Record Process := mkProcess {
  procPPID : string; procPID : string; procSTAT : string; procCOMMAND : string }.

Definition rowOf (p : Process) : Row :=
  mkRow (procPPID p) (procPID p) (procSTAT p) (procCOMMAND p).

(** The white space [ps] pads a line with: before the first column,
    between the columns and after the last one. *)
Record Padding := mkPadding {
  padLead : string; padGap1 : string; padGap2 : string; padGap3 : string;
  padTrail : string }.

(** Any white space will do; between two columns there is some. *)
Definition padded (pad : Padding) : Prop :=
  JS.all JS.isWhiteSpace (padLead pad) = true ∧
  run JS.isWhiteSpace (padGap1 pad) ∧ run JS.isWhiteSpace (padGap2 pad) ∧
  run JS.isWhiteSpace (padGap3 pad) ∧
  JS.all JS.isWhiteSpace (padTrail pad) = true.

(** [ps -A -o ppid,pid,stat,comm]: the four columns in that order. *)
Definition psLine (pad : Padding) (c1 c2 c3 c4 : string) : string :=
  padLead pad +:+ c1 +:+ padGap1 pad +:+ c2 +:+ padGap2 pad +:+ c3 +:+
  padGap3 pad +:+ c4 +:+ padTrail pad.

(** The last header is [COMMAND] on Linux and [COMM] on Darwin. *)
Definition psHeaderLine (pad : Padding) (comm : string) : string :=
  psLine pad "PPID" "PID" "STAT" comm.

Definition psDataLine (pad : Padding) (p : Process) : string :=
  psLine pad (procPPID p) (procPID p) (procSTAT p) (procCOMMAND p).

(** [ConvertTo-Csv -NoTypeInformation]: every field between quotes. *)
Definition csvDataLine (p : Process) : string :=
  renderLine [(true, procPPID p); (true, procPID p); (true, procSTAT p);
              (true, procCOMMAND p)].

Definition csvHeaderLine : string :=
  csvDataLine (mkProcess "ParentProcessId" "ProcessId" "Status" "Name").

(** Tokens, each followed by a run of white space, then a last token. *)
Fixpoint joinTokens (tokens : list (string * string)) (last : string) : string :=
  match tokens with
  | [] => last
  | (token, space) :: tokens' => token +:+ space +:+ joinTokens tokens' last
  end.

(** What a process must be like for its line to be read back. *)
Definition psPrintable (p : Process) : Prop :=
  run JS.isDigit (procPPID p) ∧ run JS.isDigit (procPID p) ∧
  run JS.notWhiteSpace (procSTAT p) ∧ run JS.dot (procCOMMAND p) ∧
  startsWith JS.isWhiteSpace (procCOMMAND p) = false ∧
  endsWith JS.isWhiteSpace (procCOMMAND p) = false.

(** A printed line: a process and the padding of its line, without four
    dashes in a row. *)
Definition psPrinted (entry : Padding * Process) : Prop :=
  padded entry.1 ∧ psPrintable entry.2 ∧
  JS.includes "----" (psDataLine entry.1 entry.2) = false.

Definition csvPrintable (p : Process) : Prop :=
  noQuote (procPPID p) = true ∧ noQuote (procPID p) = true ∧
  noQuote (procSTAT p) = true ∧ noQuote (procCOMMAND p) = true ∧
  JS.includes "----" (csvDataLine p) = false.

(** ** Listings used as examples *)

(** A table where a process that is no descendant of 100 stands between
    the rows of the ordering-sensitivity scenario. *)
Definition shell : Row := mkRow "1" "100" "S" "sh".
Definition other : Row := mkRow "999" "300" "S" "other".

(** The listing of the ordering-sensitivity scenario. *)
Definition child : Row := mkRow "100" "200" "" "child".
Definition grandchild : Row := mkRow "200" "300" "" "grandchild".

(** The row of Windows' idle process: parent 0, PID 0, no status. *)
Definition idle : Row := mkRow "0" "0" "" "System Idle Process".

(** A line of the Windows listing, its fields between quotes, followed by
    a bare field. *)
Definition csvLine : string :=
  String quote ("1234" +:+ String quote (String comma (
  String quote ("5678" +:+ String quote (String comma (
  String quote (String quote (String comma (
  String quote ("C:\Program Files\App, Inc\app.exe" +:+
  String quote (String comma "x y"))))))))))).

(** A POSIX data line whose command holds a carriage return. *)
Definition crLine : string := "1 2 S a" +:+ String carriageReturn "b".

(** The headers of the POSIX listing, once normalized. *)
Definition psHeaders : list string := ["PPID"; "PID"; "STAT"; "COMMAND"].

(** ** The POSIX data line, on 16-bit code units

    The strings above hold code units below 256.  White space and line
    terminators exist beyond that range, and the pattern of a POSIX data
    line tells them apart; so here are the steps the callback takes for
    a POSIX data line (trim, separator test, pattern, column count, row)
    once more, on strings of 16-bit code units. *)

Module Utf16.

(** [WhiteSpace] and [LineTerminator], what [trim] strips and [\s]
    matches: TAB, LF, VT, FF, CR, SP, NBSP, U+1680, U+2000 to U+200A,
    U+2028, U+2029, U+202F, U+205F, U+3000 and U+FEFF. *)
Definition whiteSpace : list N :=
  [9; 10; 11; 12; 13; 32; 160; 5760; 8192; 8193; 8194; 8195; 8196; 8197;
   8198; 8199; 8200; 8201; 8202; 8232; 8233; 8239; 8287; 12288; 65279]%N.

Definition isWhiteSpace (u : N) : bool := bool_decide (u ∈ whiteSpace).

(** [LineTerminator], what [.] does not match: LF, CR, U+2028, U+2029. *)
Definition lineTerminators : list N := [10; 13; 8232; 8233]%N.

Definition isLineTerminator (u : N) : bool := bool_decide (u ∈ lineTerminators).

Definition isDigit (u : N) : bool := (48 <=? u)%N && (u <=? 57)%N.
Definition notWhiteSpace (u : N) : bool := negb (isWhiteSpace u).
Definition dot (u : N) : bool := negb (isLineTerminator u).

(** The code units of a string of the narrow model. *)
Fixpoint ofString (s : string) : list N :=
  match s with
  | EmptyString => []
  | String c s' => N_of_ascii c :: ofString s'
  end.

Fixpoint span (p : N → bool) (s : list N) : list N * list N :=
  match s with
  | [] => ([], [])
  | u :: s' =>
      if p u then let r := span p s' in (u :: r.1, r.2)
      else ([], s)
  end.

Definition trimStart (s : list N) : list N := (span isWhiteSpace s).2.

Fixpoint trimEnd (s : list N) : list N :=
  match s with
  | [] => []
  | u :: s' =>
      let t := trimEnd s' in
      if isWhiteSpace u && bool_decide (t = []) then [] else u :: t
  end.

(** [s.trim()]. *)
Definition trim (s : list N) : list N := trimEnd (trimStart s).

Fixpoint isPrefix (sub s : list N) : bool :=
  match sub, s with
  | [], _ => true
  | _ :: _, [] => false
  | x :: sub', u :: s' => (x =? u)%N && isPrefix sub' s'
  end.

(** [s.includes(sub)]. *)
Fixpoint includes (sub s : list N) : bool :=
  isPrefix sub s ||
  match s with
  | [] => false
  | _ :: s' => includes sub s'
  end.

Record Atom := mkAtom { cls : N → bool; atLeast : nat; capturing : bool }.

Fixpoint backtrack (atLeast : nat) (attempt : nat → option (list (list N)))
    (k : nat) : option (list (list N)) :=
  if (k <? atLeast)%nat then None
  else match attempt k with
       | Some groups => Some groups
       | None =>
           match k with
           | O => None
           | S k' => backtrack atLeast attempt k'
           end
       end.

Fixpoint matchFrom (atoms : list Atom) (s : list N) : option (list (list N)) :=
  match atoms with
  | [] => if bool_decide (s = []) then Some [] else None
  | a :: atoms' =>
      backtrack (atLeast a)
        (λ k, match matchFrom atoms' (drop k s) with
              | Some groups =>
                  Some (if capturing a then take k s :: groups else groups)
              | None => None
              end)
        (length (span (cls a) s).1)
  end.

(** [/^\s*(\d+)\s+(\d+)\s+(\S+)\s+(.+)$/] *)
Definition psPattern : list Atom :=
  [ mkAtom isWhiteSpace 0 false;
    mkAtom isDigit 1 true;
    mkAtom isWhiteSpace 1 false;
    mkAtom isDigit 1 true;
    mkAtom isWhiteSpace 1 false;
    mkAtom notWhiteSpace 1 true;
    mkAtom isWhiteSpace 1 false;
    mkAtom dot 1 true ].

(** [match ? match.slice(1) : []] *)
Definition psColumns (trimmedLine : list N) : list (list N) :=
  match matchFrom psPattern trimmedLine with
  | Some groups => groups
  | None => []
  end.

(** [row[k] = v]; the [__proto__] setter ignores a string. *)
Definition assign (o : gmap (list N) (list N)) (k v : list N)
    : gmap (list N) (list N) :=
  if bool_decide (k = ofString "__proto__") then o else <[k:=v]> o.

(** [columns[i] || ''] *)
Definition orEmpty (v : option (list N)) : list N :=
  match v with
  | Some s => s
  | None => []
  end.

Fixpoint fillRow (i : nat) (headers columns : list (list N))
    (row : gmap (list N) (list N)) : gmap (list N) (list N) :=
  match headers with
  | [] => row
  | header :: headers' =>
      fillRow (S i) headers' columns (assign row header (orEmpty (columns !! i)))
  end.

Definition mkRow (ppid pid stat command : list N) : gmap (list N) (list N) :=
  assign (assign (assign (assign ∅ (ofString "PPID") ppid) (ofString "PID") pid)
            (ofString "STAT") stat) (ofString "COMMAND") command.

Definition psHeaders : list (list N) :=
  ofString <$> ["PPID"; "PID"; "STAT"; "COMMAND"].

(** The callback on POSIX once [headers] is set: [None] stands for
    [cb()] and [Some row] for [cb(null, row)]. *)
Definition dataLine (headers : list (list N)) (line : list N)
    : option (gmap (list N) (list N)) :=
  let trimmedLine := trim line in
  if (length trimmedLine =? 0)%nat || includes (ofString "----") trimmedLine
  then None
  else
    let columns := psColumns trimmedLine in
    if (length columns <? length headers)%nat then None
    else Some (fillRow 0 headers columns ∅).

(** A non-empty run of code units of one class. *)
Definition run (p : N → bool) (s : list N) : Prop :=
  s ≠ [] ∧ forallb p s = true.

Definition startsWith (p : N → bool) (s : list N) : bool :=
  match s with
  | [] => false
  | u :: _ => p u
  end.

Fixpoint endsWith (p : N → bool) (s : list N) : bool :=
  match s with
  | [] => false
  | [u] => p u
  | _ :: s' => endsWith p s'
  end.

(** [PsLine t ppid pid stat command]: [t] is made of two tokens of
    digits, a third token, and a remainder that starts at its first code
    unit that is not white space and holds no line terminator. *)
Definition PsLine (t ppid pid stat command : list N) : Prop :=
  ∃ w1 w2 w3,
    t = ppid ++ w1 ++ pid ++ w2 ++ stat ++ w3 ++ command ∧
    run isDigit ppid ∧ run isWhiteSpace w1 ∧
    run isDigit pid ∧ run isWhiteSpace w2 ∧
    run notWhiteSpace stat ∧ run isWhiteSpace w3 ∧
    run dot command ∧ startsWith isWhiteSpace command = false.

End Utf16.

(** The line [1 2 S a<LS>b], with the line separator U+2028 in the
    command. *)
Definition lsLine : list N :=
  Utf16.ofString "1 2 S a" ++ [8232%N] ++ Utf16.ofString "b".

(** * Properties *)

(** Closed equalities between rows, lists of rows and outcomes are
    decided by evaluation. *)
Ltac by_evaluation :=
  match goal with
  | |- ?P => apply (bool_decide_unpack P); vm_compute; exact I
  end.

Example end_to_end_scenario :
  treeBuilder "100" [mkRow "1" "100" "S" "sh"; mkRow "100" "200" "R" "node";
                     mkRow "999" "300" "S" "other"]
  = [mkRow "100" "200" "R" "node"].
Proof. by_evaluation. Qed.

Example ps_line :
  psColumns "412   977 Ss   watch <defunct>" = ["412"; "977"; "Ss"; "watch <defunct>"] ∧
  psColumns "412   977 Ss" = [] ∧
  psColumns "412   x77 Ss   watch" = [].
Proof. vm_compute. repeat split; reflexivity. Qed.

Example csv_line :
  parseCsvLine csvLine =
    ["1234"; "5678"; ""; "C:\Program Files\App, Inc\app.exe"; "x y"].
Proof. by_evaluation. Qed.

Example posix_listing :
  childrenOfPid false
    ["  PPID   PID STAT COMMAND"; "     0     1 Ss   /sbin/init";
     "     1   100 S    sh -c x"; "   100   200 R+   node"; ""]
    (VNumber 1) VFunction
  = Returns [processLister false]
      (Results [mkRow "1" "100" "S" "sh -c x"; mkRow "100" "200" "R+" "node"]).
Proof. by_evaluation. Qed.

(** ** The tree builder *)

Section TreeBuilder.

Variable root : string.

Lemma scan_snoc (ps : list Row) (proc : Row) :
  scan root (ps ++ [proc]) = visit (scan root ps) proc.
Proof. unfold scan. by rewrite fold_left_app. Qed.

(** The own properties of [parents] after any number of rows: [true]
    under the root and under the PID of each row kept so far. *)
Lemma scan_parents (ps : list Row) (k : string) :
  parents (scan root ps) !! k =
    if decide (k ≠ "__proto__" ∧
               (k = root ∨ k ∈ PID <$> children (scan root ps)))
    then Some true else None.
Proof.
  induction ps as [|proc ps IH] using rev_ind.
  - cbn. unfold JS.assignTrue.
    destruct (String.eqb_spec root "__proto__") as [Hr|Hr].
    + rewrite lookup_empty. case_decide as H; [|done].
      destruct H as [H1 [H2|H2]]; [congruence | by apply elem_of_nil in H2].
    + destruct (decide (k = root)) as [->|Hk].
      * rewrite lookup_insert_eq. case_decide as H; [done|].
        exfalso. apply H. auto.
      * rewrite lookup_insert_ne by done. rewrite lookup_empty.
        case_decide as H; [|done].
        destruct H as [_ [H|H]]; [done | by apply elem_of_nil in H].
  - rewrite scan_snoc. unfold visit.
    destruct (JS.truthy _ _); [|exact IH].
    cbn [parents children]. unfold JS.assignTrue.
    assert (∀ x : string, x ∈ PID <$> (children (scan root ps) ++ [proc]) ↔
              x ∈ PID <$> children (scan root ps) ∨ x = PID proc) as Hin.
    { intros x. rewrite fmap_app, elem_of_app. cbn.
      by rewrite list_elem_of_singleton. }
    destruct (String.eqb_spec (PID proc) "__proto__") as [Hp|Hp].
    + rewrite IH. apply decide_ext. rewrite Hin. split.
      * intros [? [?|?]]; auto.
      * intros [? [?|[?|?]]]; auto. congruence.
    + destruct (decide (k = PID proc)) as [->|Hk].
      * rewrite lookup_insert_eq, decide_True; [done|].
        split; [done|]. right. apply Hin. by right.
      * rewrite lookup_insert_ne by done. rewrite IH.
        apply decide_ext. rewrite Hin. split.
        -- intros [? [?|?]]; auto.
        -- intros [? [?|[?|?]]]; auto. congruence.
Qed.

(** What [if (parents[k])] tests, for a key [Object.prototype] does not
    define. *)
Lemma truthy_scan (ps : list Row) (k : string) :
  JS.inherited k = false →
  JS.truthy (parents (scan root ps)) k = true ↔
    k = root ∨ ∃ parent, parent ∈ children (scan root ps) ∧ PID parent = k.
Proof.
  intros Hk. unfold JS.truthy. rewrite scan_parents.
  assert (k ≠ "__proto__") as Hne.
  { intros ->. vm_compute in Hk. discriminate. }
  case_decide as H.
  - split; [|done]. intros _. destruct H as [_ [H|H]]; [by left|right].
    apply list_elem_of_fmap in H as (parent & -> & Hin). eauto.
  - rewrite Hk. split; [done|]. intros [->|(parent & Hin & <-)].
    + exfalso. apply H. auto.
    + exfalso. apply H. split; [done|]. right.
      apply list_elem_of_fmap. eauto.
Qed.

(** A key that was set stays truthy, inherited or not. *)
Lemma truthy_known (ps : list Row) (k : string) :
  k = root ∨ (∃ parent, parent ∈ children (scan root ps) ∧ PID parent = k) →
  JS.truthy (parents (scan root ps)) k = true.
Proof.
  intros H. unfold JS.truthy. rewrite scan_parents.
  case_decide as Hd; [done|].
  destruct (decide (k = "__proto__")) as [->|Hne]; [by vm_compute|].
  exfalso. apply Hd. split; [done|].
  destruct H as [->|(parent & Hin & <-)]; [by left|right].
  apply list_elem_of_fmap. eauto.
Qed.

Lemma children_snoc (ps : list Row) (proc : Row) :
  treeBuilder root (ps ++ [proc]) =
    if JS.truthy (parents (scan root ps)) (PPID proc)
    then treeBuilder root ps ++ [proc] else treeBuilder root ps.
Proof.
  unfold treeBuilder. rewrite scan_snoc. unfold visit.
  by destruct (JS.truthy _ _).
Qed.

Lemma children_prefix (ps qs : list Row) :
  treeBuilder root ps `prefix_of` treeBuilder root (ps ++ qs).
Proof.
  induction qs as [|proc qs IH] using rev_ind.
  - by rewrite app_nil_r.
  - rewrite app_assoc, children_snoc.
    destruct (JS.truthy _ _); [|done].
    by apply prefix_app_r.
Qed.

Lemma children_sublist (ps : list Row) :
  treeBuilder root ps `sublist_of` ps.
Proof.
  induction ps as [|proc ps IH] using rev_ind; [done|].
  rewrite children_snoc. destruct (JS.truthy _ _).
  - by apply sublist_app.
  - by apply sublist_inserts_r.
Qed.

End TreeBuilder.

Lemma Selects_all {A} (P : A → Prop) (l : list A) :
  (∀ x, x ∈ l → P x) → Selects P l l.
Proof.
  induction l as [|x l IH]; intros H; constructor.
  - apply H. by left.
  - apply IH. intros y Hy. apply H. by right.
Qed.

(** [Selects] does select: the result holds the elements of the input
    that satisfy the predicate, and is determined by them. *)
Lemma Selects_elem_of {A} (P : A → Prop) (l l' : list A) (x : A) :
  Selects P l l' → x ∈ l' ↔ x ∈ l ∧ P x.
Proof.
  induction 1 as [|y l l' Hy _ IH|y l l' Hy _ IH].
  - rewrite elem_of_nil. tauto.
  - rewrite !elem_of_cons, IH. split; [|tauto].
    intros [->|[? ?]]; auto.
  - rewrite elem_of_cons, IH. split; [tauto|].
    intros [[->|?] ?]; tauto.
Qed.

Lemma Selects_unique {A} (P : A → Prop) (l l1 l2 : list A) :
  Selects P l l1 → Selects P l l2 → l1 = l2.
Proof.
  intros H1. revert l2.
  induction H1; intros l2 H2; inversion H2; subst;
    try contradiction; try f_equal; auto.
Qed.

Lemma ParentsFirst_snoc (root : string) (ps : list Row) (proc : Row) :
  ParentsFirst root (ps ++ [proc]) →
  ParentsFirst root ps ∧
  (PPID proc = root ∨ ∃ parent, parent ∈ ps ∧ PID parent = PPID proc).
Proof.
  intros H. split.
  - intros i p Hi. pose proof (lookup_lt_Some _ _ _ Hi) as Hlt.
    destruct (H i p) as [?|(j & parent & Hj & Hp & Heq)]; [|by left|].
    { by rewrite lookup_app_l. }
    right. exists j, parent. split; [done|]. split; [|done].
    rewrite lookup_app_l in Hp; [done|lia].
  - destruct (H (length ps) proc) as [?|(j & parent & Hj & Hp & Heq)];
      [|by left|].
    { by rewrite list_lookup_middle. }
    right. exists parent. split; [|done].
    rewrite lookup_app_l in Hp by done.
    apply list_elem_of_lookup. eauto.
Qed.

(** Under that ordering the scan keeps every row. *)
Lemma parents_first_keeps_all (root : string) (ps : list Row) :
  ParentsFirst root ps → treeBuilder root ps = ps.
Proof.
  induction ps as [|proc ps IH] using rev_ind; [done|].
  intros H. apply ParentsFirst_snoc in H as [Hps Hproc].
  specialize (IH Hps). rewrite children_snoc, truthy_known.
  - by rewrite IH.
  - destruct Hproc as [?|(parent & Hin & Heq)]; [by left|right].
    exists parent. split; [|done]. fold (treeBuilder root ps). by rewrite IH.
Qed.

(** ... and every row descends from the root. *)
Lemma parents_first_descendants (root : string) (ps : list Row) :
  ParentsFirst root ps →
  ∀ i proc, ps !! i = Some proc → Descendant root ps (PID proc).
Proof.
  intros H i. induction i as [i IH] using lt_wf_ind. intros proc Hi.
  assert (proc ∈ ps) as Hin by (apply list_elem_of_lookup; eauto).
  destruct (H i proc Hi) as [Hroot|(j & parent & Hj & Hp & Heq)].
  - by apply descendant_child.
  - apply descendant_step; [done|]. rewrite <- Heq. by apply (IH j).
Qed.

(** C1: when every row's PPID is the root PID or the PID of an earlier
    row (parents before children), the single pass of the tree builder
    returns exactly the rows whose PID is a transitive descendant of the
    root PID, in the order of the input; this holds whether or not the
    root counts as its own descendant. *)
Theorem parents_first_transitive_closure (root : string) (ps : list Row) :
  ParentsFirst root ps →
  Selects (λ proc, Descendant root ps (PID proc)) ps (treeBuilder root ps) ∧
  Selects (λ proc, Reachable root ps (PID proc)) ps (treeBuilder root ps).
Proof.
  intros H. rewrite parents_first_keeps_all by done.
  split; apply Selects_all; intros proc Hin;
    apply list_elem_of_lookup in Hin as [i Hi];
    [|right]; by apply (parents_first_descendants root ps H i).
Qed.

Lemma parents_first_transitive_closure_witness :
  let ps := [mkRow "1" "100" "S" "sh"; mkRow "100" "200" "R" "node";
             mkRow "100" "201" "S" "npm"; mkRow "201" "300" "S" "sleep"] in
  ParentsFirst "1" ps ∧
  Selects (λ proc, Descendant "1" ps (PID proc)) ps (treeBuilder "1" ps).
Proof.
  intros ps.
  assert (ParentsFirst "1" ps) as H.
  { intros i proc Hi.
    destruct i as [|[|[|[|i]]]]; cbn in Hi; inversion Hi; subst; clear Hi.
    - left. reflexivity.
    - right. exists 0%nat, (mkRow "1" "100" "S" "sh").
      split; [lia|split; reflexivity].
    - right. exists 0%nat, (mkRow "1" "100" "S" "sh").
      split; [lia|split; reflexivity].
    - right. exists 2%nat, (mkRow "100" "201" "S" "npm").
      split; [lia|split; reflexivity]. }
  split; [exact H|].
  exact (proj1 (parents_first_transitive_closure "1" ps H)).
Defined.

(** C2, as stated, fails: with the rows in the order child, grandchild
    and root 100, the row of PID 300 is in the result. *)
Lemma child_then_grandchild_counterexample :
  ¬ (child ∈ treeBuilder "100" [child; grandchild] ∧
     grandchild ∉ treeBuilder "100" [child; grandchild]).
Proof.
  intros [_ H]. apply H.
  replace (treeBuilder "100" [child; grandchild]) with [child; grandchild]
    by (symmetry; by_evaluation).
  apply elem_of_cons. right. apply elem_of_cons. by left.
Qed.

(** C2, amended: in the order child, grandchild the result holds both
    rows (200 is in the set when 300 is scanned); it is in the opposite
    order, grandchild first, that the result holds the row of PID 200 and
    not the row of PID 300. *)
Theorem single_pass_ordering :
  treeBuilder "100" [child; grandchild] = [child; grandchild] ∧
  treeBuilder "100" [grandchild; child] = [child] ∧
  grandchild ∉ treeBuilder "100" [grandchild; child].
Proof.
  split; [by_evaluation|]. split; [by_evaluation|].
  replace (treeBuilder "100" [grandchild; child]) with [child]
    by (symmetry; by_evaluation).
  intros H. apply list_elem_of_singleton in H.
  apply (f_equal PID) in H. vm_compute in H. discriminate.
Qed.

(** Decimal strings are not property names of [Object.prototype]. *)
Lemma numeric_not_inherited (k : string) :
  JS.numeric k = true → JS.inherited k = false.
Proof.
  intros H. apply bool_decide_eq_false. intros Hin.
  unfold JS.objectPrototypeKeys in Hin.
  repeat (apply elem_of_cons in Hin as [->|Hin]; [by vm_compute in H|]).
  by apply elem_of_nil in Hin.
Qed.

(** C4, as stated, fails: a row whose PID and PPID both equal the root
    PID is added to the result. *)
Lemma root_row_counterexample :
  PID idle = "0" ∧ PPID idle = "0" ∧ idle ∈ treeBuilder "0" [idle].
Proof.
  split; [reflexivity|]. split; [reflexivity|].
  replace (treeBuilder "0" [idle]) with [idle] by (symmetry; by_evaluation).
  by apply list_elem_of_singleton.
Qed.

(** C4, amended: seeding the set adds no row, and a row whose PID equals
    the root PID is added exactly when its PPID is in the set as the row
    is scanned, that is when its PPID is the root PID or the PID of a row
    added before it; so a row whose PID and PPID both equal the root PID
    is added to the result. *)
Theorem root_row_added_when_parent_known
    (root : string) (pre post : list Row) (proc : Row) :
  PID proc = root →
  JS.inherited (PPID proc) = false →
  treeBuilder root [] = [] ∧
  (PPID proc = root → proc ∈ treeBuilder root (pre ++ proc :: post)) ∧
  (PPID proc = root ∨
   (∃ parent, parent ∈ treeBuilder root pre ∧ PID parent = PPID proc) →
   treeBuilder root (pre ++ [proc]) = treeBuilder root pre ++ [proc]) ∧
  (PPID proc ≠ root →
   (∀ parent, parent ∈ treeBuilder root pre → PID parent ≠ PPID proc) →
   treeBuilder root (pre ++ [proc]) = treeBuilder root pre).
Proof.
  intros Hpid Hplain.
  assert (PPID proc = root ∨
          (∃ parent, parent ∈ treeBuilder root pre ∧ PID parent = PPID proc) →
          treeBuilder root (pre ++ [proc]) = treeBuilder root pre ++ [proc])
    as Hadd.
  { intros H. rewrite children_snoc.
    by rewrite (proj2 (truthy_scan root pre (PPID proc) Hplain) H). }
  split; [reflexivity|]. split; [|split; [exact Hadd|]].
  - intros Hroot.
    eapply elem_of_prefix;
      [|replace (pre ++ proc :: post) with ((pre ++ [proc]) ++ post)
          by (by rewrite <- app_assoc);
        apply children_prefix].
    rewrite Hadd by (by left). apply elem_of_app. right.
    by apply list_elem_of_singleton.
  - intros Hne Hnone. rewrite children_snoc.
    destruct (JS.truthy _ _) eqn:Ht; [|done].
    apply truthy_scan in Ht as [?|(parent & Hin & Heq)]; [done| |done].
    by destruct (Hnone parent Hin).
Qed.

Lemma root_row_added_when_parent_known_witness :
  PID idle = "0" ∧ JS.inherited (PPID idle) = false ∧
  idle ∈ treeBuilder "0" ([] ++ idle :: []).
Proof.
  split; [reflexivity|]. split; [reflexivity|].
  apply (root_row_added_when_parent_known "0" [] [] idle);
    reflexivity.
Defined.

(** C5: when no row's chain of PPIDs reaches the root PID (the root is
    absent from the table, or present without children), the handler is
    called with an empty result list and no error. *)
Theorem no_descendant_empty_result (root : string) (ps : list Row) :
  (∀ proc, proc ∈ ps → JS.inherited (PPID proc) = false) →
  (∀ proc, proc ∈ ps → ¬ Descendant root ps (PID proc)) →
  onArray root ps = Results [].
Proof.
  intros Hplain Hnone. unfold onArray. f_equal.
  assert (∀ proc, proc ∈ ps → PPID proc ≠ root) as Hne.
  { intros proc Hin Heq. apply (Hnone proc Hin). by apply descendant_child. }
  clear Hnone.
  induction ps as [|proc ps IH] using rev_ind; [done|].
  rewrite children_snoc.
  assert (treeBuilder root ps = []) as Hps.
  { apply IH; intros p Hp; [apply Hplain|apply Hne];
      apply elem_of_app; by left. }
  destruct (JS.truthy _ _) eqn:Ht; [|done].
  assert (proc ∈ ps ++ [proc]) as Hin.
  { apply elem_of_app. right. by apply list_elem_of_singleton. }
  apply truthy_scan in Ht as [Heq|(parent & Hp & _)].
  - by destruct (Hne proc Hin).
  - fold (treeBuilder root ps) in Hp. rewrite Hps in Hp.
    by apply elem_of_nil in Hp.
  - by apply Hplain.
Qed.

Lemma no_descendant_empty_result_witness :
  let ps := [mkRow "0" "1" "Ss" "/sbin/init"; mkRow "1" "43" "S" "sh"] in
  (∀ proc, proc ∈ ps → JS.inherited (PPID proc) = false) ∧
  (∀ proc, proc ∈ ps → ¬ Descendant "977" ps (PID proc)) ∧
  onArray "977" ps = Results [].
Proof.
  intros ps.
  assert (∀ proc, proc ∈ ps → PPID proc = "0" ∨ PPID proc = "1") as Hppid.
  { intros proc Hin.
    apply elem_of_cons in Hin as [->|Hin]; [by left|].
    apply list_elem_of_singleton in Hin as ->. by right. }
  assert (∀ proc, proc ∈ ps → PID proc = "1" ∨ PID proc = "43") as Hpid.
  { intros proc Hin.
    apply elem_of_cons in Hin as [->|Hin]; [by left|].
    apply list_elem_of_singleton in Hin as ->. by right. }
  assert (∀ proc, proc ∈ ps → JS.inherited (PPID proc) = false) as H1.
  { intros proc Hin. by destruct (Hppid proc Hin) as [->| ->]. }
  assert (∀ p, Descendant "977" ps p → False) as H2.
  { intros p Hd. induction Hd as [proc Hin Heq|proc Hin _ IH]; [|done].
    by destruct (Hppid proc Hin) as [H|H]; rewrite H in Heq. }
  split; [exact H1|]. split; [intros proc _ Hd; exact (H2 _ Hd)|].
  apply (no_descendant_empty_result "977" ps H1).
  intros proc _ Hd. exact (H2 _ Hd).
Defined.

(** C10: after any prefix of the rows, the set holds the root PID and the
    PID of each row kept so far, nothing else, and it only grows; each
    row of the result has for PPID the root PID or the PID of a row
    strictly earlier in the result; the result is a subsequence of the
    input. *)
Theorem scan_invariant (root : string) (ps : list Row) :
  JS.inherited root = false →
  (∀ proc, proc ∈ ps →
     JS.inherited (PID proc) = false ∧ JS.inherited (PPID proc) = false) →
  (∀ pre post, ps = pre ++ post →
     parents (scan root pre) =
       gset_to_gmap true ({[root]} ∪ list_to_set (PID <$> treeBuilder root pre)) ∧
     parents (scan root pre) ⊆ parents (scan root ps) ∧
     treeBuilder root pre `prefix_of` treeBuilder root ps) ∧
  (∀ i proc, treeBuilder root ps !! i = Some proc →
     PPID proc = root ∨
     ∃ j parent, (j < i)%nat ∧ treeBuilder root ps !! j = Some parent ∧
                 PID parent = PPID proc) ∧
  treeBuilder root ps `sublist_of` ps.
Proof.
  intros Hroot Hplain.
  assert (∀ k : string, JS.inherited k = false → k ≠ "__proto__") as Hproto.
  { intros k Hk ->. vm_compute in Hk. discriminate. }
  split; [|split; [|apply children_sublist]].
  - intros pre post ->. split; [|split; [|apply children_prefix]].
    + apply map_eq. intros k.
      rewrite scan_parents, lookup_gset_to_gmap. fold (treeBuilder root pre).
      case_decide as H.
      * rewrite option_guard_True; [done|]. destruct H as [_ H].
        apply elem_of_union. rewrite elem_of_singleton, elem_of_list_to_set.
        done.
      * rewrite option_guard_False; [done|]. intros Hin. apply H.
        apply elem_of_union in Hin.
        rewrite elem_of_singleton, elem_of_list_to_set in Hin.
        split; [|done]. destruct Hin as [->|Hin]; [by apply Hproto|].
        apply list_elem_of_fmap in Hin as (proc & -> & Hin).
        apply Hproto, Hplain, elem_of_app. left.
        eapply elem_of_sublist; [done|apply children_sublist].
    + apply map_subseteq_spec. intros k b. rewrite !scan_parents.
      case_decide as H; [|done]. intros <-. rewrite decide_True; [done|].
      destruct H as [Hk H]. split; [done|].
      destruct H as [?|H]; [by left|right].
      destruct (children_prefix root pre post) as [rest Hrest].
      unfold treeBuilder in Hrest. rewrite Hrest, fmap_app.
      apply elem_of_app. by left.
  - induction ps as [|proc ps IH] using rev_ind; [done|].
    intros i p. rewrite children_snoc.
    assert (∀ q, q ∈ ps →
              JS.inherited (PID q) = false ∧ JS.inherited (PPID q) = false)
      as Hps.
    { intros q Hq. apply Hplain, elem_of_app. by left. }
    specialize (IH Hps).
    destruct (JS.truthy _ _) eqn:Ht; [|by apply IH].
    intros Hi. apply lookup_app_Some in Hi as [Hi|[Hlen Hi]].
    + destruct (IH i p Hi) as [?|(j & parent & Hj & Hp & Heq)]; [by left|].
      right. exists j, parent. split; [done|]. split; [|done].
      by apply lookup_app_l_Some.
    + apply list_lookup_singleton_Some in Hi as [_ <-].
      apply truthy_scan in Ht as [?|(parent & Hin & Heq)]; [by left| |].
      * right. fold (treeBuilder root ps) in Hin.
        apply list_elem_of_lookup in Hin as [j Hj].
        exists j, parent. split; [|split; [|done]].
        -- apply lookup_lt_Some in Hj. lia.
        -- by apply lookup_app_l_Some.
      * apply Hplain, elem_of_app. right. by apply list_elem_of_singleton.
Qed.

Lemma scan_invariant_witness :
  JS.inherited "100" = false ∧
  treeBuilder "100" [grandchild; child; grandchild]
    `sublist_of` [grandchild; child; grandchild].
Proof.
  split; [reflexivity|].
  apply (scan_invariant "100" [grandchild; child; grandchild]);
    [reflexivity|].
  intros proc Hin.
  repeat (apply elem_of_cons in Hin as [->|Hin]; [split; reflexivity|]).
  by apply elem_of_nil in Hin.
Defined.

(** ** [normalizeHeader] *)

(** C7: [Name] and [COMM] give [COMMAND], [ParentProcessId] gives [PPID],
    [ProcessId] gives [PID], [Status] gives [STAT], and any other string
    is returned as it is. *)
Theorem normalizeHeader_mapping (str : string) :
  str ∉ ["Name"; "COMM"; "ParentProcessId"; "ProcessId"; "Status"] →
  normalizeHeader "Name" = "COMMAND" ∧
  normalizeHeader "COMM" = "COMMAND" ∧
  normalizeHeader "ParentProcessId" = "PPID" ∧
  normalizeHeader "ProcessId" = "PID" ∧
  normalizeHeader "Status" = "STAT" ∧
  normalizeHeader str = str.
Proof.
  intros H. repeat (split; [reflexivity|]).
  unfold normalizeHeader.
  repeat match goal with
         | |- context [String.eqb str ?name] =>
             destruct (String.eqb_spec str name) as [->|_];
             [exfalso; apply H; repeat constructor|]
         end.
  reflexivity.
Qed.

Lemma normalizeHeader_mapping_witness :
  ("PPID" ∉ ["Name"; "COMM"; "ParentProcessId"; "ProcessId"; "Status"]) ∧
  normalizeHeader "PPID" = "PPID".
Proof.
  assert ("PPID" ∉ ["Name"; "COMM"; "ParentProcessId"; "ProcessId"; "Status"])
    as H.
  { intros H. repeat (apply elem_of_cons in H as [H|H]; [discriminate|]).
    by apply elem_of_nil in H. }
  split; [exact H|]. apply (normalizeHeader_mapping "PPID" H).
Defined.

(** ** [childrenOfPid] *)

(** C9: called with a callback that is not a function, the query throws
    its usage error at once, with no process spawned; with a function it
    does not throw: it spawns the lister and returns. *)
Theorem callback_validation
    (isWindows : bool) (stdout : list string) (pid callback : Value) :
  (typeof callback ≠ "function" →
   childrenOfPid isWindows stdout pid callback =
     Throws [] "childrenOfPid(pid, callback) expects callback") ∧
  (typeof callback = "function" →
   ∃ completion,
     childrenOfPid isWindows stdout pid callback =
       Returns [processLister isWindows] completion).
Proof.
  unfold childrenOfPid.
  destruct (String.eqb_spec (typeof callback) "function") as [H|H]; cbn.
  - split; [done|]. intros _. eauto.
  - split; [done|]. intros H'. by destruct H.
Qed.

Lemma callback_validation_witness :
  typeof VUndefined ≠ "function" ∧
  childrenOfPid false [] (VNumber 1) VUndefined =
    Throws [] "childrenOfPid(pid, callback) expects callback".
Proof.
  assert (typeof VUndefined ≠ "function") as H by discriminate.
  split; [exact H|].
  exact (proj1 (callback_validation false [] (VNumber 1) VUndefined) H).
Defined.

(** ** Strings *)

Lemma append_nil_l (s : string) : "" +:+ s = s.
Proof. reflexivity. Qed.

Lemma append_cons (c : ascii) (a b : string) :
  String c a +:+ b = String c (a +:+ b).
Proof. reflexivity. Qed.

Lemma append_nil_r (s : string) : s +:+ "" = s.
Proof.
  induction s as [|c s IH]; [done|]. by rewrite append_cons, IH.
Qed.

Lemma append_assoc (a b c : string) : (a +:+ b) +:+ c = a +:+ (b +:+ c).
Proof.
  induction a as [|x a IH]; [done|]. by rewrite !append_cons, IH.
Qed.

Lemma append_snoc (a b : string) (c : ascii) :
  (a +:+ String c "") +:+ b = a +:+ String c b.
Proof. by rewrite append_assoc, append_cons, append_nil_l. Qed.

Lemma length_append (a b : string) :
  String.length (a +:+ b) = (String.length a + String.length b)%nat.
Proof.
  induction a as [|x a IH]; [done|]. rewrite append_cons. cbn. by rewrite IH.
Qed.

Lemma all_append (p : ascii → bool) (a b : string) :
  JS.all p (a +:+ b) = JS.all p a && JS.all p b.
Proof.
  induction a as [|x a IH]; [done|]. rewrite append_cons. cbn.
  by rewrite IH, andb_assoc.
Qed.

(** ** [parseCsvLine] *)

Section Csv.

Variable fields : list string.

(** Between quotes every code unit but the quote goes to the field. *)
Lemma parseCsvFrom_inside (current v rest : string) :
  noQuote v = true →
  parseCsvFrom fields current true (v +:+ rest) =
    parseCsvFrom fields (current +:+ v) true rest.
Proof.
  revert current. induction v as [|c v IH]; intros current H.
  - by rewrite append_nil_l, append_nil_r.
  - cbn in H. apply andb_true_iff in H as [Hc Hv].
    apply negb_true_iff in Hc. rewrite append_cons. cbn [parseCsvFrom].
    rewrite Hc, andb_false_r, IH by done.
    by rewrite append_snoc.
Qed.

(** Outside quotes every code unit but the quote and the comma does. *)
Lemma parseCsvFrom_bare (current v rest : string) :
  noQuote v = true → noComma v = true →
  parseCsvFrom fields current false (v +:+ rest) =
    parseCsvFrom fields (current +:+ v) false rest.
Proof.
  revert current. induction v as [|c v IH]; intros current Hq Hc.
  - by rewrite append_nil_l, append_nil_r.
  - cbn in Hq, Hc.
    apply andb_true_iff in Hq as [Hq Hqv]. apply negb_true_iff in Hq.
    apply andb_true_iff in Hc as [Hc Hcv]. apply negb_true_iff in Hc.
    rewrite append_cons. cbn [parseCsvFrom].
    rewrite Hq, Hc. cbn [andb]. rewrite IH by done. by rewrite append_snoc.
Qed.

Lemma parseCsvFrom_cell (current rest : string) (cell : bool * string) :
  wellFormedCell cell →
  parseCsvFrom fields current false (renderCell cell +:+ rest) =
    parseCsvFrom fields (current +:+ cell.2) false rest.
Proof.
  destruct cell as [[|] v]; intros [Hq Hc]; unfold renderCell; cbn in *.
  - rewrite append_cons. cbn [parseCsvFrom].
    replace (Ascii.eqb quote quote) with true by done. cbn [negb].
    rewrite append_assoc, parseCsvFrom_inside by done.
    rewrite append_cons, append_nil_l. cbn [parseCsvFrom].
    by replace (Ascii.eqb quote quote) with true by done.
  - by apply parseCsvFrom_bare; [|apply Hc].
Qed.

End Csv.

Lemma parseCsvFrom_line (fields : list string) (cells : list (bool * string)) :
  cells ≠ [] → Forall wellFormedCell cells →
  parseCsvFrom fields "" false (renderLine cells) = fields ++ (snd <$> cells).
Proof.
  revert fields. induction cells as [|cell cells IH]; intros fields Hne Hwf;
    [done|].
  apply Forall_cons in Hwf as [Hcell Hwf].
  destruct cells as [|cell' cells].
  - cbn [renderLine]. rewrite <- (append_nil_r (renderCell cell)).
    rewrite parseCsvFrom_cell by done. by rewrite append_nil_l.
  - cbn [renderLine]. rewrite parseCsvFrom_cell by done.
    cbn [parseCsvFrom]. replace (Ascii.eqb comma quote) with false by done.
    replace (Ascii.eqb comma comma) with true by done. cbn [andb negb].
    rewrite append_nil_l, IH by done. by rewrite <- app_assoc.
Qed.

Lemma parseCsvFrom_noQuote
    (fields : list string) (current : string) (inQuote : bool) (line : string) :
  Forall (λ field, noQuote field = true) fields → noQuote current = true →
  Forall (λ field, noQuote field = true) (parseCsvFrom fields current inQuote line).
Proof.
  revert fields current inQuote.
  induction line as [|c line IH]; intros fields current inQuote Hf Hc; cbn.
  - apply Forall_app. split; [done|]. by apply Forall_singleton.
  - destruct (Ascii.eqb c quote) eqn:Hq; [by apply IH|].
    destruct (Ascii.eqb c comma && negb inQuote).
    + apply IH; [|done]. apply Forall_app. split; [done|].
      by apply Forall_singleton.
    + apply IH; [done|]. unfold noQuote. rewrite all_append. cbn.
      fold (noQuote current). by rewrite Hc, Hq.
Qed.

Lemma parseCsvFrom_length
    (fields : list string) (current : string) (inQuote : bool) (line : string) :
  length (parseCsvFrom fields current inQuote line) =
    (length fields + S (separators inQuote line))%nat.
Proof.
  revert fields current inQuote.
  induction line as [|c line IH]; intros fields current inQuote; cbn.
  - rewrite length_app. cbn. lia.
  - destruct (Ascii.eqb c quote); [by rewrite IH|].
    destruct (Ascii.eqb c comma), inQuote; cbn; rewrite IH; try done.
    rewrite length_app. cbn. lia.
Qed.

Lemma parseCsvFrom_text
    (fields : list string) (current : string) (inQuote : bool) (line : string) :
  foldr String.app "" (parseCsvFrom fields current inQuote line) =
    foldr String.app "" fields +:+ current +:+ fieldText inQuote line.
Proof.
  assert (∀ l x, foldr String.app "" (l ++ [x]) = foldr String.app "" l +:+ x)
    as Hsnoc.
  { intros l x. induction l as [|y l IHl]; cbn.
    - by rewrite append_nil_r.
    - by rewrite IHl, append_assoc. }
  revert fields current inQuote.
  induction line as [|c line IH]; intros fields current inQuote; cbn.
  - by rewrite Hsnoc, append_nil_r.
  - destruct (Ascii.eqb c quote); [by rewrite IH|].
    destruct (Ascii.eqb c comma), inQuote; cbn; rewrite IH; try done.
    + by rewrite append_snoc.
    + by rewrite Hsnoc, append_assoc.
    + by rewrite append_snoc.
    + by rewrite append_snoc.
Qed.

(** C3: in [parseCsvLine] a quote switches between outside and inside a
    quoted field, a comma separates fields only outside quotes, and the
    quotes are left out of the fields; so a line of cells, quoted or
    bare, gives back the values of the cells, commas between quotes
    included. *)
Theorem parseCsvLine_fields (line : string) (cells : list (bool * string)) :
  cells ≠ [] →
  Forall wellFormedCell cells →
  Forall (λ field, noQuote field = true) (parseCsvLine line) ∧
  length (parseCsvLine line) = S (separators false line) ∧
  foldr String.app "" (parseCsvLine line) = fieldText false line ∧
  parseCsvLine (renderLine cells) = snd <$> cells.
Proof.
  intros Hne Hwf. unfold parseCsvLine. split; [|split; [|split]].
  - by apply parseCsvFrom_noQuote.
  - by rewrite parseCsvFrom_length.
  - by rewrite parseCsvFrom_text.
  - by rewrite parseCsvFrom_line.
Qed.

Lemma parseCsvLine_fields_witness :
  let cells := [(true, "1234"); (true, "5678"); (true, "");
                (true, "C:\Program Files\App, Inc\app.exe"); (false, "x y")] in
  cells ≠ [] ∧ Forall wellFormedCell cells ∧
  parseCsvLine (renderLine cells) =
    ["1234"; "5678"; ""; "C:\Program Files\App, Inc\app.exe"; "x y"].
Proof.
  intros cells.
  assert (cells ≠ []) as Hne by discriminate.
  assert (Forall wellFormedCell cells) as Hwf.
  { repeat (apply Forall_cons; split;
              [split; [reflexivity|intros H; try discriminate H; reflexivity]|]).
    by apply Forall_nil. }
  split; [exact Hne|]. split; [exact Hwf|].
  exact (proj2 (proj2 (proj2 (parseCsvLine_fields "" cells Hne Hwf)))).
Defined.

(** ** The line parser *)

Lemma splitFrom_nonempty (cur : string) (inSep : bool) (s : string) :
  JS.splitFrom cur inSep s ≠ [].
Proof.
  revert cur inSep. induction s as [|c s IH]; intros cur inSep; cbn; [done|].
  destruct (JS.isWhiteSpace c); [|apply IH].
  destruct inSep; [apply IH|done].
Qed.

Lemma parseCsvLine_nonempty (line : string) : parseCsvLine line ≠ [].
Proof.
  intros H. apply (f_equal length) in H. unfold parseCsvLine in H.
  rewrite parseCsvFrom_length in H. discriminate.
Qed.

Section LineParser.

Variable isWindows : bool.

Lemma lineParser_headersRead (headers : option (list string)) (line : string) :
  headersRead headers → headersRead (lineParser isWindows headers line).1.
Proof.
  intros H. unfold lineParser.
  destruct (_ || _); [done|]. destruct headers as [hs|].
  - by destruct (_ <? _)%nat.
  - cbn. intros hs' [= <-] Hnil. apply fmap_nil_inv in Hnil.
    destruct isWindows.
    + by apply parseCsvLine_nonempty in Hnil.
    + by apply splitFrom_nonempty in Hnil.
Qed.

Lemma headersAfter_headersRead (headers : option (list string))
    (lines : list string) :
  headersRead headers → headersRead (headersAfter isWindows headers lines).
Proof.
  revert headers. induction lines as [|line lines IH]; intros headers H;
    [done|].
  cbn. apply IH. by apply lineParser_headersRead.
Qed.

(** The callback never answers [cb(err)]. *)
Lemma lineParser_no_raise (headers : option (list string)) (line err : string) :
  (lineParser isWindows headers line).2 ≠ Raise err.
Proof.
  unfold lineParser. destruct (_ || _); [done|].
  destruct headers as [hs|]; [|done]. by destruct (_ <? _)%nat.
Qed.

Lemma mapLines_total (headers : option (list string)) (lines : list string) :
  ∃ rows, mapLines isWindows headers lines = inl rows.
Proof.
  revert headers. induction lines as [|line lines IH]; intros headers; cbn.
  - by exists [].
  - pose proof (lineParser_no_raise headers line) as Hno.
    destruct (lineParser isWindows headers line) as [headers' [|row|err]].
    + apply IH.
    + destruct (IH headers') as [rows ->]. eauto.
    + by destruct (Hno err).
Qed.

Lemma lineParser_malformed (headers : option (list string)) (line : string) :
  headersRead headers → Malformed isWindows headers line →
  lineParser isWindows headers line = (headers, Drop).
Proof.
  intros Hread Hbad. unfold lineParser, Malformed in *. cbn zeta in Hbad.
  destruct (String.length (JS.trim line) =? 0)%nat eqn:Hlen; [done|].
  destruct (JS.includes "----" (JS.trim line)) eqn:Hdash; [done|].
  cbn [orb].
  destruct Hbad as [Hbad|[Hbad|(hs & -> & Hbad)]].
  - apply Nat.eqb_neq in Hlen. by destruct Hlen.
  - discriminate.
  - destruct (_ <? _)%nat eqn:Hcols; [done|]. exfalso.
    apply Nat.ltb_ge in Hcols. destruct Hbad as [[-> Hno]|Hlt]; [|lia].
    unfold psColumns in Hcols. rewrite Hno in Hcols. cbn in Hcols.
    specialize (Hread hs eq_refl). destruct hs; [done|cbn in Hcols; lia].
Qed.

Lemma mapLines_skip (headers : option (list string))
    (pre post : list string) (line : string) :
  headersRead headers →
  Malformed isWindows (headersAfter isWindows headers pre) line →
  mapLines isWindows headers (pre ++ line :: post) =
    mapLines isWindows headers (pre ++ post).
Proof.
  revert headers. induction pre as [|l pre IH]; intros headers Hread Hbad.
  - cbn in *. by rewrite lineParser_malformed.
  - cbn in *. pose proof (lineParser_headersRead headers l Hread) as Hread'.
    destruct (lineParser isWindows headers l) as [headers' [|row|err]];
      cbn in *; [| |done].
    + by apply IH.
    + by rewrite IH.
Qed.

End LineParser.

(** C8: a malformed line (empty once trimmed, holding a run of dashes, a
    POSIX data line the pattern does not match, or a data line with fewer
    columns than headers) makes the line parser answer with no row and no
    error and leaves its state as it was: the rows parsed, and the outcome
    of the query, are those of the listing without that line, and the
    query ends with a result list. *)
Theorem malformed_line_dropped
    (isWindows : bool) (pid : string) (pre post : list string) (line : string) :
  Malformed isWindows (headersAfter isWindows None pre) line →
  lineParser isWindows (headersAfter isWindows None pre) line =
    (headersAfter isWindows None pre, Drop) ∧
  mapLines isWindows None (pre ++ line :: post) =
    mapLines isWindows None (pre ++ post) ∧
  pipeline isWindows pid (pre ++ line :: post) =
    pipeline isWindows pid (pre ++ post) ∧
  ∃ results, pipeline isWindows pid (pre ++ line :: post) = Results results.
Proof.
  intros Hbad.
  assert (headersRead None) as Hnone by done.
  split; [|split; [|split]].
  - apply lineParser_malformed; [|done]. by apply headersAfter_headersRead.
  - by apply mapLines_skip.
  - unfold pipeline. by rewrite mapLines_skip.
  - unfold pipeline.
    destruct (mapLines_total isWindows None (pre ++ line :: post)) as [rows ->].
    unfold onArray. eauto.
Qed.

Lemma malformed_line_dropped_witness :
  let pre := ["  PPID   PID STAT COMMAND"; "     1   100 S    sh"] in
  let post := ["   100   200 R+   node"] in
  Malformed false (headersAfter false None pre) "   100   1x9 Z    gone" ∧
  pipeline false "100" (pre ++ "   100   1x9 Z    gone" :: post) =
    Results [mkRow "100" "200" "R+" "node"].
Proof.
  intros pre post.
  assert (Malformed false (headersAfter false None pre)
            "   100   1x9 Z    gone") as H.
  { right. right. exists ["PPID"; "PID"; "STAT"; "COMMAND"].
    split; [by_evaluation|]. left. split; [reflexivity|by_evaluation]. }
  split; [exact H|].
  rewrite (proj1 (proj2 (proj2
             (malformed_line_dropped false "100" pre post _ H)))).
  by_evaluation.
Defined.

(** ** Regular expressions *)

Lemma span_append (p : ascii → bool) (s : string) :
  (JS.span p s).1 +:+ (JS.span p s).2 = s.
Proof.
  induction s as [|c s IH]; [done|]. cbn. destruct (p c); [|done].
  cbn. by rewrite append_cons, IH.
Qed.

Lemma span_all (p : ascii → bool) (s : string) :
  JS.all p (JS.span p s).1 = true.
Proof.
  induction s as [|c s IH]; [done|]. cbn. destruct (p c) eqn:Hc; [|done].
  cbn. by rewrite Hc, IH.
Qed.

Lemma span_rest (p : ascii → bool) (s : string) :
  startsWith p (JS.span p s).2 = false.
Proof.
  induction s as [|c s IH]; [done|]. cbn. by destruct (p c) eqn:Hc.
Qed.

(** A run followed by a code unit of another class is the longest one. *)
Lemma span_run (p : ascii → bool) (x y : string) :
  JS.all p x = true → startsWith p y = false → JS.span p (x +:+ y) = (x, y).
Proof.
  intros Hx Hy. induction x as [|c x IH].
  - rewrite append_nil_l. destruct y as [|c y]; [done|]. cbn in *.
    by rewrite Hy.
  - cbn in Hx. apply andb_true_iff in Hx as [Hc Hx].
    rewrite append_cons. cbn. by rewrite Hc, IH.
Qed.

Lemma strTake_append (x y : string) : JS.strTake (String.length x) (x +:+ y) = x.
Proof.
  induction x as [|c x IH]; [by destruct y|].
  rewrite append_cons. cbn. by rewrite IH.
Qed.

Lemma strDrop_append (x y : string) : JS.strDrop (String.length x) (x +:+ y) = y.
Proof.
  induction x as [|c x IH]; [by destruct y|]. by rewrite append_cons.
Qed.

Lemma strTake_strDrop (k : nat) (s : string) :
  JS.strTake k s +:+ JS.strDrop k s = s.
Proof.
  revert s. induction k as [|k IH]; intros s; [by destruct s|].
  destruct s as [|c s]; [done|]. cbn. by rewrite append_cons, IH.
Qed.

Lemma strTake_span (p : ascii → bool) (k : nat) (s : string) :
  (k ≤ String.length (JS.span p s).1)%nat →
  JS.all p (JS.strTake k s) = true ∧ String.length (JS.strTake k s) = k.
Proof.
  revert k. induction s as [|c s IH]; intros k Hk.
  - cbn in Hk. by replace k with 0%nat by lia.
  - cbn in Hk. destruct (p c) eqn:Hc; cbn in Hk.
    + destruct k as [|k]; [done|]. cbn. rewrite Hc.
      destruct (IH k) as [-> ->]; [lia|done].
    + by replace k with 0%nat by lia.
Qed.

Section Backtrack.

Variable atLeast : nat.
Variable attempt : nat → option (list string).

(** The longest run is tried first. *)
Lemma backtrack_first (k : nat) (groups : list string) :
  (atLeast ≤ k)%nat → attempt k = Some groups →
  JS.backtrack atLeast attempt k = Some groups.
Proof.
  intros Hk Hgroups. apply Nat.ltb_ge in Hk.
  destruct k; cbn [JS.backtrack]; by rewrite Hk, Hgroups.
Qed.

Lemma backtrack_sound (k : nat) (groups : list string) :
  JS.backtrack atLeast attempt k = Some groups →
  ∃ j, (atLeast ≤ j ≤ k)%nat ∧ attempt j = Some groups.
Proof.
  induction k as [|k IH]; cbn [JS.backtrack].
  - destruct (0 <? atLeast)%nat eqn:Hlt; [done|]. apply Nat.ltb_ge in Hlt.
    destruct (attempt 0%nat) eqn:H0; [|done]. intros [= <-].
    exists 0%nat. split; [lia|done].
  - destruct (S k <? atLeast)%nat eqn:Hlt; [done|]. apply Nat.ltb_ge in Hlt.
    destruct (attempt (S k)) eqn:HS.
    + intros [= <-]. exists (S k). split; [lia|done].
    + intros H. destruct (IH H) as (j & Hj & Hgroups).
      exists j. split; [lia|done].
Qed.

End Backtrack.

Lemma matchFrom_greedy (a : JS.Atom) (atoms : list JS.Atom)
    (x y : string) (groups : list string) :
  JS.all (JS.cls a) x = true → startsWith (JS.cls a) y = false →
  (JS.atLeast a ≤ String.length x)%nat →
  JS.matchFrom atoms y = Some groups →
  JS.matchFrom (a :: atoms) (x +:+ y) =
    Some (if JS.capturing a then x :: groups else groups).
Proof.
  intros Hx Hy Hlen Hrest. cbn [JS.matchFrom].
  rewrite span_run by done. cbn [fst].
  apply backtrack_first; [done|].
  by rewrite strDrop_append, strTake_append, Hrest.
Qed.

Lemma matchFrom_cons_sound (a : JS.Atom) (atoms : list JS.Atom)
    (s : string) (groups : list string) :
  JS.matchFrom (a :: atoms) s = Some groups →
  ∃ x y groups',
    s = x +:+ y ∧ JS.all (JS.cls a) x = true ∧
    (JS.atLeast a ≤ String.length x)%nat ∧
    JS.matchFrom atoms y = Some groups' ∧
    groups = if JS.capturing a then x :: groups' else groups'.
Proof.
  cbn [JS.matchFrom]. intros H.
  apply backtrack_sound in H as (j & Hj & H).
  destruct (JS.matchFrom atoms (JS.strDrop j s)) as [groups'|] eqn:Hrest;
    [|done].
  injection H as <-.
  destruct (strTake_span (JS.cls a) j s) as [Hall Hlen]; [lia|].
  exists (JS.strTake j s), (JS.strDrop j s), groups'.
  rewrite strTake_strDrop, Hlen. repeat split; try done. lia.
Qed.

Lemma matchFrom_nil_sound (s : string) (groups : list string) :
  JS.matchFrom [] s = Some groups → s = "" ∧ groups = [].
Proof.
  cbn. destruct (String.eqb_spec s ""); [|done]. by intros [= <-].
Qed.

(** *** Character classes *)

Lemma digit_not_space (c : ascii) :
  JS.isDigit c = true → JS.isWhiteSpace c = false.
Proof. destruct c as [[] [] [] [] [] [] [] []]; vm_compute; congruence. Qed.

Lemma space_not_digit (c : ascii) :
  JS.isWhiteSpace c = true → JS.isDigit c = false.
Proof.
  intros H. destruct (JS.isDigit c) eqn:Hd; [|done].
  apply digit_not_space in Hd. congruence.
Qed.

Lemma space_not_other (c : ascii) :
  JS.isWhiteSpace c = true → JS.notWhiteSpace c = false.
Proof. unfold JS.notWhiteSpace. by intros ->. Qed.

Lemma other_not_space (c : ascii) :
  JS.notWhiteSpace c = true → JS.isWhiteSpace c = false.
Proof. unfold JS.notWhiteSpace. by intros ?%negb_true_iff. Qed.

Lemma run_length (p : ascii → bool) (x : string) :
  run p x → (1 ≤ String.length x)%nat.
Proof. intros [Hne _]. destruct x; [done|cbn; lia]. Qed.

(** What follows a run starts like the run. *)
Lemma startsWith_run (p q : ascii → bool) (x y : string) :
  run q x → (∀ c, q c = true → p c = false) →
  startsWith p (x +:+ y) = false.
Proof.
  intros [Hne Hall] Hpq. destruct x as [|c x]; [done|].
  cbn in Hall. apply andb_true_iff in Hall as [Hc _].
  rewrite append_cons. cbn. by apply Hpq.
Qed.

Lemma endsWith_run (p : ascii → bool) (x y : string) :
  run p y → endsWith p (x +:+ y) = true.
Proof.
  intros [Hne Hall]. induction x as [|c x IH].
  - rewrite append_nil_l. induction y as [|c y IH]; [done|].
    cbn in Hall. apply andb_true_iff in Hall as [Hc Hall].
    destruct y as [|c' y]; [done|]. by apply IH.
  - rewrite append_cons. cbn [endsWith].
    destruct (x +:+ y) eqn:Hxy; [|done].
    destruct x; [|done]. by rewrite append_nil_l in Hxy.
Qed.

(** *** [trim] *)

Lemma trimEnd_endsWith (s : string) :
  endsWith JS.isWhiteSpace (JS.trimEnd s) = false.
Proof.
  induction s as [|c s IH]; [done|]. cbn.
  destruct (JS.isWhiteSpace c) eqn:Hc; cbn [andb].
  - destruct (String.eqb_spec (JS.trimEnd s) ""); [done|].
    cbn [endsWith]. by destruct (JS.trimEnd s).
  - cbn [endsWith]. by destruct (JS.trimEnd s).
Qed.

Lemma trimEnd_startsWith (s : string) :
  startsWith JS.isWhiteSpace s = false →
  startsWith JS.isWhiteSpace (JS.trimEnd s) = false.
Proof.
  destruct s as [|c s]; [done|]. cbn. intros Hc. rewrite Hc. by cbn.
Qed.

Lemma trim_startsWith (line : string) :
  startsWith JS.isWhiteSpace (JS.trim line) = false.
Proof. apply trimEnd_startsWith, span_rest. Qed.

Lemma trim_endsWith (line : string) :
  endsWith JS.isWhiteSpace (JS.trim line) = false.
Proof. apply trimEnd_endsWith. Qed.

(** *** The pattern of a POSIX data line *)

Lemma psPattern_matches (t ppid pid stat command : string) :
  PsLine t ppid pid stat command →
  JS.matchFrom psPattern t = Some [ppid; pid; stat; command].
Proof.
  intros (w1 & w2 & w3 & -> & Hppid & Hw1 & Hpid & Hw2 & Hstat & Hw3 &
          Hcommand & Hstart).
  unfold psPattern.
  refine (matchFrom_greedy (JS.mkAtom JS.isWhiteSpace 0 false) _ "" _ _
            eq_refl _ (Nat.le_0_l _) _).
  { apply (startsWith_run _ JS.isDigit); [done|apply digit_not_space]. }
  refine (matchFrom_greedy (JS.mkAtom JS.isDigit 1 true) _ ppid _ _
            (proj2 Hppid) _ (run_length _ _ Hppid) _).
  { apply (startsWith_run _ JS.isWhiteSpace); [done|apply space_not_digit]. }
  refine (matchFrom_greedy (JS.mkAtom JS.isWhiteSpace 1 false) _ w1 _ _
            (proj2 Hw1) _ (run_length _ _ Hw1) _).
  { apply (startsWith_run _ JS.isDigit); [done|apply digit_not_space]. }
  refine (matchFrom_greedy (JS.mkAtom JS.isDigit 1 true) _ pid _ _
            (proj2 Hpid) _ (run_length _ _ Hpid) _).
  { apply (startsWith_run _ JS.isWhiteSpace); [done|apply space_not_digit]. }
  refine (matchFrom_greedy (JS.mkAtom JS.isWhiteSpace 1 false) _ w2 _ _
            (proj2 Hw2) _ (run_length _ _ Hw2) _).
  { apply (startsWith_run _ JS.notWhiteSpace); [done|apply other_not_space]. }
  refine (matchFrom_greedy (JS.mkAtom JS.notWhiteSpace 1 true) _ stat _ _
            (proj2 Hstat) _ (run_length _ _ Hstat) _).
  { apply (startsWith_run _ JS.isWhiteSpace); [done|apply space_not_other]. }
  refine (matchFrom_greedy (JS.mkAtom JS.isWhiteSpace 1 false) _ w3 _ _
            (proj2 Hw3) _ (run_length _ _ Hw3) _).
  { exact Hstart. }
  pose proof (matchFrom_greedy (JS.mkAtom JS.dot 1 true) [] command "" []
                (proj2 Hcommand) eq_refl (run_length _ _ Hcommand) eq_refl)
    as Hlast.
  rewrite append_nil_r in Hlast. exact Hlast.
Qed.

Lemma psPattern_sound (t : string) (columns : list string) :
  startsWith JS.isWhiteSpace t = false →
  endsWith JS.isWhiteSpace t = false →
  JS.matchFrom psPattern t = Some columns →
  ∃ ppid pid stat command,
    PsLine t ppid pid stat command ∧ columns = [ppid; pid; stat; command].
Proof.
  intros Hstart Hend Hmatch. pose proof Hmatch as H. unfold psPattern in H.
  apply matchFrom_cons_sound in H
    as (w0 & t1 & g1 & -> & Hw0 & _ & H & ->).
  apply matchFrom_cons_sound in H
    as (ppid & t2 & g2 & -> & Hppid & Lppid & H & ->).
  apply matchFrom_cons_sound in H
    as (w1 & t3 & g3 & -> & Hw1 & Lw1 & H & ->).
  apply matchFrom_cons_sound in H
    as (pid & t4 & g4 & -> & Hpid & Lpid & H & ->).
  apply matchFrom_cons_sound in H
    as (w2 & t5 & g5 & -> & Hw2 & Lw2 & H & ->).
  apply matchFrom_cons_sound in H
    as (stat & t6 & g6 & -> & Hstat & Lstat & H & ->).
  apply matchFrom_cons_sound in H
    as (w3 & t7 & g7 & -> & Hw3 & Lw3 & H & ->).
  apply matchFrom_cons_sound in H
    as (rest & t8 & g8 & -> & Hrest & Lrest & H & ->).
  apply matchFrom_nil_sound in H as [-> ->].
  cbn [JS.cls JS.atLeast JS.capturing] in *.
  rewrite append_nil_r in *.
  assert (∀ p x, (1 ≤ String.length x)%nat → JS.all p x = true → run p x)
    as Hrun.
  { intros p x Hlen Hall. split; [|done]. intros ->. cbn in Hlen. lia. }
  assert (w0 = "") as ->.
  { destruct w0 as [|c w0]; [done|]. cbn in Hw0.
    apply andb_true_iff in Hw0 as [Hc _].
    rewrite append_cons in Hstart. cbn in Hstart. congruence. }
  rewrite append_nil_l in *.
  pose proof (span_append JS.isWhiteSpace rest) as Hsplit.
  pose proof (span_all JS.isWhiteSpace rest) as Hlead.
  pose proof (span_rest JS.isWhiteSpace rest) as Hcommand.
  destruct (JS.span JS.isWhiteSpace rest) as [lead command].
  cbn [fst snd] in *. subst rest. rewrite all_append in Hrest.
  apply andb_true_iff in Hrest as [_ Hdot].
  assert (command ≠ "") as Hne.
  { intros ->. rewrite append_nil_r in *.
    rewrite <- !append_assoc, endsWith_run in Hend; [done|].
    by apply Hrun. }
  assert (PsLine (ppid +:+ w1 +:+ pid +:+ w2 +:+ stat +:+ w3 +:+ lead +:+ command)
            ppid pid stat command) as Hline.
  { exists w1, w2, (w3 +:+ lead).
    split; [by rewrite (append_assoc w3 lead command)|].
    split; [by apply Hrun|]. split; [by apply Hrun|].
    split; [by apply Hrun|]. split; [by apply Hrun|].
    split; [by apply Hrun|]. split; [|done].
    apply Hrun; [rewrite length_append; lia|].
    rewrite all_append. by rewrite Hw3, Hlead. }
  exists ppid, pid, stat, command. split; [done|].
  apply psPattern_matches in Hline. rewrite Hline in Hmatch.
  by injection Hmatch as <-.
Qed.

(** C6, as stated, fails: in the line [1 2 S a<CR>b] the first two tokens
    are digits and the remainder [a<CR>b] holds a white-space code unit, a
    carriage return, yet nothing is captured and the line is dropped. *)
Lemma carriage_return_counterexample :
  JS.trim crLine =
    "1" +:+ " " +:+ "2" +:+ " " +:+ "S" +:+ " " +:+
    String "a" (String carriageReturn "b") ∧
  JS.isWhiteSpace carriageReturn = true ∧
  psColumns (JS.trim crLine) ≠
    ["1"; "2"; "S"; String "a" (String carriageReturn "b")] ∧
  lineParser false (Some psHeaders) crLine = (Some psHeaders, Drop).
Proof.
  split; [reflexivity|]. split; [reflexivity|].
  split; [|by_evaluation].
  replace (psColumns (JS.trim crLine)) with (@nil string)
    by (symmetry; by_evaluation).
  discriminate.
Qed.

(** On the strings of the line parser, the pattern matches a trimmed
    data line exactly when the line is two tokens of digits, a third
    token and a remainder without line terminator, and the columns are
    then these four. *)
Lemma latin1_psLine_columns (line : string) :
  (∀ columns,
     JS.matchFrom psPattern (JS.trim line) = Some columns ↔
     ∃ ppid pid stat command,
       PsLine (JS.trim line) ppid pid stat command ∧
       columns = [ppid; pid; stat; command]) ∧
  (∀ ppid pid stat command,
     PsLine (JS.trim line) ppid pid stat command →
     psColumns (JS.trim line) = [ppid; pid; stat; command] ∧
     (JS.includes "----" (JS.trim line) = false →
      lineParser false (Some psHeaders) line =
        (Some psHeaders, Emit (mkRow ppid pid stat command)))) ∧
  ((∀ ppid pid stat command, ¬ PsLine (JS.trim line) ppid pid stat command) →
   psColumns (JS.trim line) = [] ∧
   lineParser false (Some psHeaders) line = (Some psHeaders, Drop)).
Proof.
  split; [|split].
  - intros columns. split.
    + apply psPattern_sound; [apply trim_startsWith|apply trim_endsWith].
    + intros (ppid & pid & stat & command & Hline & ->).
      by apply psPattern_matches.
  - intros ppid pid stat command Hline.
    pose proof (psPattern_matches _ _ _ _ _ Hline) as Hmatch.
    assert (psColumns (JS.trim line) = [ppid; pid; stat; command]) as Hcols.
    { unfold psColumns. by rewrite Hmatch. }
    split; [done|]. intros Hdash. unfold lineParser.
    rewrite Hdash, Hcols.
    assert ((String.length (JS.trim line) =? 0)%nat = false) as ->; [|done].
    apply Nat.eqb_neq.
    destruct Hline as (w1 & w2 & w3 & -> & Hppid & _).
    apply run_length in Hppid. rewrite length_append. lia.
  - intros Hnone.
    assert (psColumns (JS.trim line) = []) as Hcols.
    { unfold psColumns.
      destruct (JS.matchFrom psPattern (JS.trim line)) as [columns|] eqn:H;
        [|done].
      apply psPattern_sound in H
        as (ppid & pid & stat & command & Hline & _);
        [|apply trim_startsWith|apply trim_endsWith].
      by destruct (Hnone ppid pid stat command). }
    split; [done|]. unfold lineParser. rewrite Hcols.
    by destruct (_ || _).
Qed.

(** ** The pattern of a POSIX data line, on 16-bit code units *)

Lemma digit16_not_space (u : N) :
  Utf16.isDigit u = true → Utf16.isWhiteSpace u = false.
Proof.
  unfold Utf16.isDigit, Utf16.isWhiteSpace.
  intros [Hlo Hhi]%andb_true_iff.
  apply N.leb_le in Hlo. apply N.leb_le in Hhi.
  apply bool_decide_eq_false. intros Hin. unfold Utf16.whiteSpace in Hin.
  repeat (apply elem_of_cons in Hin as [->|Hin]; [lia|]).
  by apply elem_of_nil in Hin.
Qed.

Lemma space16_not_digit (u : N) :
  Utf16.isWhiteSpace u = true → Utf16.isDigit u = false.
Proof.
  intros H. destruct (Utf16.isDigit u) eqn:Hd; [|done].
  apply digit16_not_space in Hd. congruence.
Qed.

Lemma space16_not_other (u : N) :
  Utf16.isWhiteSpace u = true → Utf16.notWhiteSpace u = false.
Proof. unfold Utf16.notWhiteSpace. by intros ->. Qed.

Lemma other16_not_space (u : N) :
  Utf16.notWhiteSpace u = true → Utf16.isWhiteSpace u = false.
Proof. unfold Utf16.notWhiteSpace. by intros ?%negb_true_iff. Qed.

Lemma span16_append (p : N → bool) (s : list N) :
  (Utf16.span p s).1 ++ (Utf16.span p s).2 = s.
Proof.
  induction s as [|u s IH]; [done|]. cbn. destruct (p u); [|done].
  cbn. by rewrite IH.
Qed.

Lemma span16_all (p : N → bool) (s : list N) :
  forallb p (Utf16.span p s).1 = true.
Proof.
  induction s as [|u s IH]; [done|]. cbn. destruct (p u) eqn:Hu; [|done].
  cbn. by rewrite Hu, IH.
Qed.

Lemma span16_rest (p : N → bool) (s : list N) :
  Utf16.startsWith p (Utf16.span p s).2 = false.
Proof.
  induction s as [|u s IH]; [done|]. cbn. by destruct (p u) eqn:Hu.
Qed.

Lemma span16_run (p : N → bool) (x y : list N) :
  forallb p x = true → Utf16.startsWith p y = false →
  Utf16.span p (x ++ y) = (x, y).
Proof.
  intros Hx Hy. induction x as [|u x IH].
  - destruct y as [|u y]; [done|]. cbn in *. by rewrite Hy.
  - cbn in Hx. apply andb_true_iff in Hx as [Hu Hx].
    cbn. by rewrite Hu, IH.
Qed.

Lemma take16_span (p : N → bool) (k : nat) (s : list N) :
  (k ≤ length (Utf16.span p s).1)%nat →
  forallb p (take k s) = true ∧ length (take k s) = k.
Proof.
  revert k. induction s as [|u s IH]; intros k Hk.
  - cbn in Hk. by replace k with 0%nat by lia.
  - cbn in Hk. destruct (p u) eqn:Hu; cbn in Hk.
    + destruct k as [|k]; [done|]. cbn. rewrite Hu.
      destruct (IH k) as [-> ->]; [lia|done].
    + by replace k with 0%nat by lia.
Qed.

Section Backtrack16.

Variable atLeast : nat.
Variable attempt : nat → option (list (list N)).

Lemma backtrack16_first (k : nat) (groups : list (list N)) :
  (atLeast ≤ k)%nat → attempt k = Some groups →
  Utf16.backtrack atLeast attempt k = Some groups.
Proof.
  intros Hk Hgroups. apply Nat.ltb_ge in Hk.
  destruct k; cbn [Utf16.backtrack]; by rewrite Hk, Hgroups.
Qed.

Lemma backtrack16_sound (k : nat) (groups : list (list N)) :
  Utf16.backtrack atLeast attempt k = Some groups →
  ∃ j, (atLeast ≤ j ≤ k)%nat ∧ attempt j = Some groups.
Proof.
  induction k as [|k IH]; cbn [Utf16.backtrack].
  - destruct (0 <? atLeast)%nat eqn:Hlt; [done|]. apply Nat.ltb_ge in Hlt.
    destruct (attempt 0%nat) eqn:H0; [|done]. intros [= <-].
    exists 0%nat. split; [lia|done].
  - destruct (S k <? atLeast)%nat eqn:Hlt; [done|]. apply Nat.ltb_ge in Hlt.
    destruct (attempt (S k)) eqn:HS.
    + intros [= <-]. exists (S k). split; [lia|done].
    + intros H. destruct (IH H) as (j & Hj & Hgroups).
      exists j. split; [lia|done].
Qed.

End Backtrack16.

Lemma matchFrom16_greedy (a : Utf16.Atom) (atoms : list Utf16.Atom)
    (x y : list N) (groups : list (list N)) :
  forallb (Utf16.cls a) x = true → Utf16.startsWith (Utf16.cls a) y = false →
  (Utf16.atLeast a ≤ length x)%nat →
  Utf16.matchFrom atoms y = Some groups →
  Utf16.matchFrom (a :: atoms) (x ++ y) =
    Some (if Utf16.capturing a then x :: groups else groups).
Proof.
  intros Hx Hy Hlen Hrest. cbn [Utf16.matchFrom].
  rewrite span16_run by done. cbn [fst].
  apply backtrack16_first; [done|].
  by rewrite drop_app_length, take_app_length, Hrest.
Qed.

Lemma matchFrom16_cons_sound (a : Utf16.Atom) (atoms : list Utf16.Atom)
    (s : list N) (groups : list (list N)) :
  Utf16.matchFrom (a :: atoms) s = Some groups →
  ∃ x y groups',
    s = x ++ y ∧ forallb (Utf16.cls a) x = true ∧
    (Utf16.atLeast a ≤ length x)%nat ∧
    Utf16.matchFrom atoms y = Some groups' ∧
    groups = if Utf16.capturing a then x :: groups' else groups'.
Proof.
  cbn [Utf16.matchFrom]. intros H.
  apply backtrack16_sound in H as (j & Hj & H).
  destruct (Utf16.matchFrom atoms (drop j s)) as [groups'|] eqn:Hrest;
    [|done].
  injection H as <-.
  destruct (take16_span (Utf16.cls a) j s) as [Hall Hlen]; [lia|].
  exists (take j s), (drop j s), groups'.
  rewrite take_drop, Hlen. repeat split; try done. lia.
Qed.

Lemma matchFrom16_nil_sound (s : list N) (groups : list (list N)) :
  Utf16.matchFrom [] s = Some groups → s = [] ∧ groups = [].
Proof. cbn. case_bool_decide; [|done]. by intros [= <-]. Qed.

Lemma run16_length (p : N → bool) (x : list N) :
  Utf16.run p x → (1 ≤ length x)%nat.
Proof. intros [Hne _]. destruct x; [done|cbn; lia]. Qed.

Lemma startsWith16_run (p q : N → bool) (x y : list N) :
  Utf16.run q x → (∀ u, q u = true → p u = false) →
  Utf16.startsWith p (x ++ y) = false.
Proof.
  intros [Hne Hall] Hpq. destruct x as [|u x]; [done|].
  cbn in Hall. apply andb_true_iff in Hall as [Hu _]. cbn. by apply Hpq.
Qed.

Lemma endsWith16_run (p : N → bool) (x y : list N) :
  Utf16.run p y → Utf16.endsWith p (x ++ y) = true.
Proof.
  intros [Hne Hall]. induction x as [|u x IH].
  - cbn [app]. induction y as [|u y IH]; [done|].
    cbn in Hall. apply andb_true_iff in Hall as [Hu Hall].
    destruct y as [|u' y]; [done|]. by apply IH.
  - cbn [app Utf16.endsWith].
    destruct (x ++ y) eqn:Hxy; [|done].
    by apply app_eq_nil in Hxy as [_ ->].
Qed.

Lemma trimEnd16_endsWith (s : list N) :
  Utf16.endsWith Utf16.isWhiteSpace (Utf16.trimEnd s) = false.
Proof.
  induction s as [|u s IH]; [done|]. cbn.
  destruct (Utf16.isWhiteSpace u) eqn:Hu; cbn [andb].
  - case_bool_decide as Ht; [done|].
    cbn [Utf16.endsWith]. by destruct (Utf16.trimEnd s).
  - cbn [Utf16.endsWith]. by destruct (Utf16.trimEnd s).
Qed.

Lemma trimEnd16_startsWith (s : list N) :
  Utf16.startsWith Utf16.isWhiteSpace s = false →
  Utf16.startsWith Utf16.isWhiteSpace (Utf16.trimEnd s) = false.
Proof.
  destruct s as [|u s]; [done|]. cbn. intros Hu. rewrite Hu. by cbn.
Qed.

Lemma trim16_startsWith (line : list N) :
  Utf16.startsWith Utf16.isWhiteSpace (Utf16.trim line) = false.
Proof. apply trimEnd16_startsWith, span16_rest. Qed.

Lemma trim16_endsWith (line : list N) :
  Utf16.endsWith Utf16.isWhiteSpace (Utf16.trim line) = false.
Proof. apply trimEnd16_endsWith. Qed.

Lemma psPattern16_matches (t ppid pid stat command : list N) :
  Utf16.PsLine t ppid pid stat command →
  Utf16.matchFrom Utf16.psPattern t = Some [ppid; pid; stat; command].
Proof.
  intros (w1 & w2 & w3 & -> & Hppid & Hw1 & Hpid & Hw2 & Hstat & Hw3 &
          Hcommand & Hstart).
  unfold Utf16.psPattern.
  refine (matchFrom16_greedy (Utf16.mkAtom Utf16.isWhiteSpace 0 false) _ [] _ _
            eq_refl _ (Nat.le_0_l _) _).
  { apply (startsWith16_run _ Utf16.isDigit); [done|apply digit16_not_space]. }
  refine (matchFrom16_greedy (Utf16.mkAtom Utf16.isDigit 1 true) _ ppid _ _
            (proj2 Hppid) _ (run16_length _ _ Hppid) _).
  { apply (startsWith16_run _ Utf16.isWhiteSpace);
      [done|apply space16_not_digit]. }
  refine (matchFrom16_greedy (Utf16.mkAtom Utf16.isWhiteSpace 1 false) _ w1 _ _
            (proj2 Hw1) _ (run16_length _ _ Hw1) _).
  { apply (startsWith16_run _ Utf16.isDigit); [done|apply digit16_not_space]. }
  refine (matchFrom16_greedy (Utf16.mkAtom Utf16.isDigit 1 true) _ pid _ _
            (proj2 Hpid) _ (run16_length _ _ Hpid) _).
  { apply (startsWith16_run _ Utf16.isWhiteSpace);
      [done|apply space16_not_digit]. }
  refine (matchFrom16_greedy (Utf16.mkAtom Utf16.isWhiteSpace 1 false) _ w2 _ _
            (proj2 Hw2) _ (run16_length _ _ Hw2) _).
  { apply (startsWith16_run _ Utf16.notWhiteSpace);
      [done|apply other16_not_space]. }
  refine (matchFrom16_greedy (Utf16.mkAtom Utf16.notWhiteSpace 1 true) _ stat _ _
            (proj2 Hstat) _ (run16_length _ _ Hstat) _).
  { apply (startsWith16_run _ Utf16.isWhiteSpace);
      [done|apply space16_not_other]. }
  refine (matchFrom16_greedy (Utf16.mkAtom Utf16.isWhiteSpace 1 false) _ w3 _ _
            (proj2 Hw3) _ (run16_length _ _ Hw3) _).
  { exact Hstart. }
  pose proof (matchFrom16_greedy (Utf16.mkAtom Utf16.dot 1 true) [] command [] []
                (proj2 Hcommand) eq_refl (run16_length _ _ Hcommand) eq_refl)
    as Hlast.
  rewrite app_nil_r in Hlast. exact Hlast.
Qed.

Lemma psPattern16_sound (t : list N) (columns : list (list N)) :
  Utf16.startsWith Utf16.isWhiteSpace t = false →
  Utf16.endsWith Utf16.isWhiteSpace t = false →
  Utf16.matchFrom Utf16.psPattern t = Some columns →
  ∃ ppid pid stat command,
    Utf16.PsLine t ppid pid stat command ∧
    columns = [ppid; pid; stat; command].
Proof.
  intros Hstart Hend Hmatch. pose proof Hmatch as H.
  unfold Utf16.psPattern in H.
  apply matchFrom16_cons_sound in H
    as (w0 & t1 & g1 & -> & Hw0 & _ & H & ->).
  apply matchFrom16_cons_sound in H
    as (ppid & t2 & g2 & -> & Hppid & Lppid & H & ->).
  apply matchFrom16_cons_sound in H
    as (w1 & t3 & g3 & -> & Hw1 & Lw1 & H & ->).
  apply matchFrom16_cons_sound in H
    as (pid & t4 & g4 & -> & Hpid & Lpid & H & ->).
  apply matchFrom16_cons_sound in H
    as (w2 & t5 & g5 & -> & Hw2 & Lw2 & H & ->).
  apply matchFrom16_cons_sound in H
    as (stat & t6 & g6 & -> & Hstat & Lstat & H & ->).
  apply matchFrom16_cons_sound in H
    as (w3 & t7 & g7 & -> & Hw3 & Lw3 & H & ->).
  apply matchFrom16_cons_sound in H
    as (rest & t8 & g8 & -> & Hrest & Lrest & H & ->).
  apply matchFrom16_nil_sound in H as [-> ->].
  cbn [Utf16.cls Utf16.atLeast Utf16.capturing] in *.
  rewrite app_nil_r in *.
  assert (∀ p x, (1 ≤ length x)%nat → forallb p x = true → Utf16.run p x)
    as Hrun.
  { intros p x Hlen Hall. split; [|done]. intros ->. cbn in Hlen. lia. }
  assert (w0 = []) as ->.
  { destruct w0 as [|u w0]; [done|]. cbn in Hw0.
    apply andb_true_iff in Hw0 as [Hu _]. cbn in Hstart. congruence. }
  cbn [app] in *.
  pose proof (span16_append Utf16.isWhiteSpace rest) as Hsplit.
  pose proof (span16_all Utf16.isWhiteSpace rest) as Hlead.
  pose proof (span16_rest Utf16.isWhiteSpace rest) as Hcommand.
  destruct (Utf16.span Utf16.isWhiteSpace rest) as [lead command].
  cbn [fst snd] in *. subst rest. rewrite forallb_app in Hrest.
  apply andb_true_iff in Hrest as [_ Hdot].
  assert (command ≠ []) as Hne.
  { intros ->. rewrite app_nil_r in *.
    rewrite !app_assoc, endsWith16_run in Hend; [done|].
    by apply Hrun. }
  assert (Utf16.PsLine
            (ppid ++ w1 ++ pid ++ w2 ++ stat ++ w3 ++ lead ++ command)
            ppid pid stat command) as Hline.
  { exists w1, w2, (w3 ++ lead).
    split; [by rewrite <- (app_assoc w3 lead command)|].
    split; [by apply Hrun|]. split; [by apply Hrun|].
    split; [by apply Hrun|]. split; [by apply Hrun|].
    split; [by apply Hrun|]. split; [|done].
    apply Hrun; [rewrite length_app; lia|].
    rewrite forallb_app. by rewrite Hw3, Hlead. }
  exists ppid, pid, stat, command. split; [done|].
  apply psPattern16_matches in Hline. rewrite Hline in Hmatch.
  by injection Hmatch as <-.
Qed.

(** *** The two models agree on the strings of the line parser *)

Lemma isWhiteSpace_ofAscii (c : ascii) :
  Utf16.isWhiteSpace (N_of_ascii c) = JS.isWhiteSpace c.
Proof. by destruct c as [[] [] [] [] [] [] [] []]. Qed.

Lemma isDigit_ofAscii (c : ascii) :
  Utf16.isDigit (N_of_ascii c) = JS.isDigit c.
Proof. by destruct c as [[] [] [] [] [] [] [] []]. Qed.

Lemma dot_ofAscii (c : ascii) : Utf16.dot (N_of_ascii c) = JS.dot c.
Proof. by destruct c as [[] [] [] [] [] [] [] []]. Qed.

Lemma notWhiteSpace_ofAscii (c : ascii) :
  Utf16.notWhiteSpace (N_of_ascii c) = JS.notWhiteSpace c.
Proof.
  unfold Utf16.notWhiteSpace, JS.notWhiteSpace. by rewrite isWhiteSpace_ofAscii.
Qed.

Lemma ofString_nil (s : string) : Utf16.ofString s = [] ↔ s = "".
Proof. by destruct s. Qed.

Lemma ofString_length (s : string) :
  length (Utf16.ofString s) = String.length s.
Proof. induction s as [|c s IH]; [done|]. cbn. by rewrite IH. Qed.

Lemma span_ofString (p16 : N → bool) (p : ascii → bool) (s : string) :
  (∀ c, p16 (N_of_ascii c) = p c) →
  Utf16.span p16 (Utf16.ofString s) =
    (Utf16.ofString (JS.span p s).1, Utf16.ofString (JS.span p s).2).
Proof.
  intros Hp. induction s as [|c s IH]; [done|].
  cbn. rewrite Hp. destruct (p c); [|done]. by rewrite IH.
Qed.

Lemma trimEnd_ofString (s : string) :
  Utf16.trimEnd (Utf16.ofString s) = Utf16.ofString (JS.trimEnd s).
Proof.
  induction s as [|c s IH]; [done|].
  cbn. rewrite IH, isWhiteSpace_ofAscii.
  destruct (JS.isWhiteSpace c); cbn [andb]; [|done].
  destruct (String.eqb_spec (JS.trimEnd s) "") as [->|Hne].
  - by rewrite bool_decide_eq_true_2.
  - rewrite bool_decide_eq_false_2; [done|]. by rewrite ofString_nil.
Qed.

Lemma trim_ofString (s : string) :
  Utf16.trim (Utf16.ofString s) = Utf16.ofString (JS.trim s).
Proof.
  unfold Utf16.trim, Utf16.trimStart, JS.trim, JS.trimStart.
  rewrite (span_ofString _ JS.isWhiteSpace) by apply isWhiteSpace_ofAscii.
  apply trimEnd_ofString.
Qed.

Lemma take_ofString (k : nat) (s : string) :
  take k (Utf16.ofString s) = Utf16.ofString (JS.strTake k s).
Proof.
  revert s. induction k as [|k IH]; intros [|c s]; try done.
  cbn. by rewrite IH.
Qed.

Lemma drop_ofString (k : nat) (s : string) :
  drop k (Utf16.ofString s) = Utf16.ofString (JS.strDrop k s).
Proof.
  revert s. induction k as [|k IH]; intros [|c s]; try done. cbn. apply IH.
Qed.

Lemma backtrack_ofString (atLeast : nat)
    (attempt16 : nat → option (list (list N)))
    (attempt : nat → option (list string)) (k : nat) :
  (∀ j, attempt16 j = fmap (M:=list) Utf16.ofString <$> attempt j) →
  Utf16.backtrack atLeast attempt16 k =
    fmap (M:=list) Utf16.ofString <$> JS.backtrack atLeast attempt k.
Proof.
  intros Hattempt.
  induction k as [|k IH]; cbn [Utf16.backtrack JS.backtrack];
    rewrite Hattempt; destruct (_ <? _)%nat; try done;
    by destruct (attempt _).
Qed.

Lemma matchFrom_ofString (atoms16 : list Utf16.Atom) (atoms : list JS.Atom)
    (s : string) :
  Forall2 (λ a16 a, (∀ c, Utf16.cls a16 (N_of_ascii c) = JS.cls a c) ∧
                    Utf16.atLeast a16 = JS.atLeast a ∧
                    Utf16.capturing a16 = JS.capturing a) atoms16 atoms →
  Utf16.matchFrom atoms16 (Utf16.ofString s) =
    fmap (M:=list) Utf16.ofString <$> JS.matchFrom atoms s.
Proof.
  intros Hatoms. revert s.
  induction Hatoms as [|a16 a atoms16 atoms (Hcls & Hleast & Hcap) _ IH];
    intros s.
  - cbn. destruct (String.eqb_spec s "") as [->|Hne].
    + by rewrite bool_decide_eq_true_2.
    + rewrite bool_decide_eq_false_2; [done|]. by rewrite ofString_nil.
  - cbn [Utf16.matchFrom JS.matchFrom].
    rewrite (span_ofString _ (JS.cls a)) by done. cbn [fst].
    rewrite ofString_length, Hleast. apply backtrack_ofString.
    intros j. rewrite drop_ofString, IH, take_ofString, Hcap.
    destruct (JS.matchFrom atoms (JS.strDrop j s)); [|done].
    by destruct (JS.capturing a).
Qed.

Lemma isPrefix_ofString (sub s : string) :
  Utf16.isPrefix (Utf16.ofString sub) (Utf16.ofString s) = String.prefix sub s.
Proof.
  revert s. induction sub as [|c sub IH]; intros [|c' s]; try done.
  change (String.prefix (String c sub) (String c' s))
    with (if ascii_dec c c' then String.prefix sub s else false).
  cbn. rewrite IH. destruct (ascii_dec c c') as [->|Hne].
  - by rewrite N.eqb_refl.
  - destruct (N.eqb_spec (N_of_ascii c) (N_of_ascii c')) as [Heq|]; [|done].
    destruct Hne. by rewrite <- (ascii_N_embedding c), Heq, ascii_N_embedding.
Qed.

Lemma includes_ofString (sub s : string) :
  Utf16.includes (Utf16.ofString sub) (Utf16.ofString s) = JS.includes sub s.
Proof.
  induction s as [|c s IH].
  - change (JS.includes sub "") with (String.prefix sub "" || false).
    cbn [Utf16.includes]. by rewrite <- isPrefix_ofString.
  - change (JS.includes sub (String c s))
      with (String.prefix sub (String c s) || JS.includes sub s).
    cbn [Utf16.includes Utf16.ofString].
    rewrite IH. by rewrite <- isPrefix_ofString.
Qed.

(** On a line of code units below 256 the steps on 16-bit code units are
    those of the line parser: same trimmed line, same separator test,
    same columns. *)
Lemma lineParser_refines_utf16 (line : string) :
  Utf16.trim (Utf16.ofString line) = Utf16.ofString (JS.trim line) ∧
  Utf16.includes (Utf16.ofString "----") (Utf16.trim (Utf16.ofString line)) =
    JS.includes "----" (JS.trim line) ∧
  Utf16.psColumns (Utf16.trim (Utf16.ofString line)) =
    Utf16.ofString <$> psColumns (JS.trim line).
Proof.
  rewrite trim_ofString. split; [done|]. split; [apply includes_ofString|].
  unfold Utf16.psColumns, psColumns.
  rewrite (matchFrom_ofString Utf16.psPattern psPattern).
  - by destruct (JS.matchFrom psPattern (JS.trim line)).
  - unfold Utf16.psPattern, psPattern.
    repeat (apply Forall2_cons; split;
              [split; [first [apply isWhiteSpace_ofAscii | apply isDigit_ofAscii
                             | apply notWhiteSpace_ofAscii | apply dot_ofAscii]
                      |done]|]).
    by apply Forall2_nil.
Qed.

(** C6, amended: the pattern matches a trimmed data line exactly when the
    line is two tokens of digits, a third token and a remainder without
    line terminator (carriage return, line feed, U+2028, U+2029); the
    columns are then the first token (PPID), the second (PID), the third
    (STAT) and the whole remainder from its first code unit that is not
    white space, inner white space included (COMMAND), and the callback
    emits them as a row under the POSIX headers unless the line holds
    four dashes in a row; any other line gives no columns and is
    dropped. *)
Theorem psLine_columns (line : list N) :
  (∀ columns,
     Utf16.matchFrom Utf16.psPattern (Utf16.trim line) = Some columns ↔
     ∃ ppid pid stat command,
       Utf16.PsLine (Utf16.trim line) ppid pid stat command ∧
       columns = [ppid; pid; stat; command]) ∧
  (∀ ppid pid stat command,
     Utf16.PsLine (Utf16.trim line) ppid pid stat command →
     Utf16.psColumns (Utf16.trim line) = [ppid; pid; stat; command] ∧
     Utf16.dataLine Utf16.psHeaders line =
       if Utf16.includes (Utf16.ofString "----") (Utf16.trim line) then None
       else Some (Utf16.mkRow ppid pid stat command)) ∧
  ((∀ ppid pid stat command,
      ¬ Utf16.PsLine (Utf16.trim line) ppid pid stat command) →
   Utf16.psColumns (Utf16.trim line) = [] ∧
   Utf16.dataLine Utf16.psHeaders line = None).
Proof.
  split; [|split].
  - intros columns. split.
    + apply psPattern16_sound; [apply trim16_startsWith|apply trim16_endsWith].
    + intros (ppid & pid & stat & command & Hline & ->).
      by apply psPattern16_matches.
  - intros ppid pid stat command Hline.
    pose proof (psPattern16_matches _ _ _ _ _ Hline) as Hmatch.
    assert (Utf16.psColumns (Utf16.trim line) = [ppid; pid; stat; command])
      as Hcols.
    { unfold Utf16.psColumns. by rewrite Hmatch. }
    split; [done|]. unfold Utf16.dataLine. rewrite Hcols.
    assert ((length (Utf16.trim line) =? 0)%nat = false) as ->.
    { apply Nat.eqb_neq.
      destruct Hline as (w1 & w2 & w3 & -> & Hppid & _).
      apply run16_length in Hppid. rewrite length_app. lia. }
    cbn [orb]. by destruct (Utf16.includes _ _).
  - intros Hnone.
    assert (Utf16.psColumns (Utf16.trim line) = []) as Hcols.
    { unfold Utf16.psColumns.
      destruct (Utf16.matchFrom Utf16.psPattern (Utf16.trim line))
        as [columns|] eqn:H; [|done].
      apply psPattern16_sound in H
        as (ppid & pid & stat & command & Hline & _);
        [|apply trim16_startsWith|apply trim16_endsWith].
      by destruct (Hnone ppid pid stat command). }
    split; [done|]. unfold Utf16.dataLine. rewrite Hcols.
    by destruct (_ || _).
Qed.

Lemma psLine_columns_witness :
  let line := Utf16.ofString "   412   977 Ss   watch <defunct>  " in
  Utf16.PsLine (Utf16.trim line)
    (Utf16.ofString "412") (Utf16.ofString "977") (Utf16.ofString "Ss")
    (Utf16.ofString "watch <defunct>") ∧
  Utf16.dataLine Utf16.psHeaders line =
    Some (Utf16.mkRow (Utf16.ofString "412") (Utf16.ofString "977")
            (Utf16.ofString "Ss") (Utf16.ofString "watch <defunct>")).
Proof.
  intros line.
  assert (Utf16.PsLine (Utf16.trim line)
            (Utf16.ofString "412") (Utf16.ofString "977") (Utf16.ofString "Ss")
            (Utf16.ofString "watch <defunct>")) as H.
  { exists (Utf16.ofString "   "), (Utf16.ofString " "), (Utf16.ofString "   ").
    split; [reflexivity|].
    repeat (split; [split; [discriminate|reflexivity]|]). reflexivity. }
  split; [exact H|].
  exact (proj2 (proj1 (proj2 (psLine_columns line)) _ _ _ _ H)).
Defined.

(** The line separator U+2028 is white space for [trim] and [\s] and a
    line terminator for [.]: the line [1 2 S a<LS>b] gives no columns
    and no row. *)
Example line_separator_dropped :
  Utf16.isWhiteSpace 8232 = true ∧
  Utf16.trim lsLine = lsLine ∧
  Utf16.psColumns (Utf16.trim lsLine) = [] ∧
  Utf16.dataLine Utf16.psHeaders lsLine = None.
Proof. repeat split; by_evaluation. Qed.

(** * Further properties of the code *)

(** ** The tree builder, whatever the order of the rows *)

Lemma Descendant_app (root : string) (ps qs : list Row) (p : string) :
  Descendant root ps p → Descendant root (ps ++ qs) p.
Proof.
  induction 1 as [proc Hin Heq|proc Hin _ IH].
  - apply descendant_child; [|done]. apply elem_of_app. by left.
  - apply descendant_step; [|done]. apply elem_of_app. by left.
Qed.

Lemma kept_descendant (root : string) (ps : list Row) :
  (∀ proc, proc ∈ ps → JS.inherited (PPID proc) = false) →
  ∀ proc, proc ∈ treeBuilder root ps → Descendant root ps (PID proc).
Proof.
  induction ps as [|row ps IH] using rev_ind; intros Hplain proc Hin.
  - by apply elem_of_nil in Hin.
  - assert (∀ q, q ∈ treeBuilder root ps → Descendant root (ps ++ [row]) (PID q))
      as Hold.
    { intros q Hq. apply Descendant_app, IH; [|done].
      intros p Hp. apply Hplain, elem_of_app. by left. }
    assert (row ∈ ps ++ [row]) as Hrow.
    { apply elem_of_app. right. by apply list_elem_of_singleton. }
    rewrite children_snoc in Hin.
    destruct (JS.truthy _ _) eqn:Ht; [|by apply Hold].
    apply elem_of_app in Hin as [Hin|Hin]; [by apply Hold|].
    apply list_elem_of_singleton in Hin as ->.
    apply truthy_scan in Ht as [Heq|(parent & Hp & Heq)]; [| |by apply Hplain].
    + by apply descendant_child.
    + apply descendant_step; [done|]. rewrite <- Heq. by apply Hold.
Qed.

(** X1: the scan never reports a process that does not descend from the
    root: every row of the result is a row of the table whose PID is a
    transitive descendant of the root PID, in whatever order the rows
    come. *)
Theorem kept_rows_are_descendants (root : string) (ps : list Row) :
  (∀ proc, proc ∈ ps → JS.inherited (PPID proc) = false) →
  ∀ proc, proc ∈ treeBuilder root ps →
    proc ∈ ps ∧ Descendant root ps (PID proc).
Proof.
  intros Hplain proc Hin. split.
  - eapply elem_of_sublist; [done|apply children_sublist].
  - by apply kept_descendant.
Qed.

Lemma kept_rows_are_descendants_witness :
  (∀ proc, proc ∈ [grandchild; child] → JS.inherited (PPID proc) = false) ∧
  Descendant "100" [grandchild; child] (PID child).
Proof.
  assert (∀ proc, proc ∈ [grandchild; child] →
                  JS.inherited (PPID proc) = false) as H.
  { intros proc Hin.
    repeat (apply elem_of_cons in Hin as [->|Hin]; [reflexivity|]).
    by apply elem_of_nil in Hin. }
  split; [exact H|].
  apply (kept_rows_are_descendants "100" [grandchild; child] H child).
  replace (treeBuilder "100" [grandchild; child]) with [child]
    by (symmetry; by_evaluation).
  by apply list_elem_of_singleton.
Defined.

(** X2: a row is kept as soon as its parent is known when it is scanned:
    the children of the root are always in the result, wherever they
    stand, and so is a row whose PPID is the PID of a row kept before
    it. *)
Theorem row_of_known_parent_kept
    (root : string) (pre post : list Row) (proc : Row) :
  PPID proc = root ∨
  (∃ parent, parent ∈ treeBuilder root pre ∧ PID parent = PPID proc) →
  proc ∈ treeBuilder root (pre ++ proc :: post).
Proof.
  intros H.
  eapply elem_of_prefix;
    [|replace (pre ++ proc :: post) with ((pre ++ [proc]) ++ post)
        by (by rewrite <- app_assoc);
      apply children_prefix].
  rewrite children_snoc, truthy_known by done.
  apply elem_of_app. right. by apply list_elem_of_singleton.
Qed.

Lemma row_of_known_parent_kept_witness :
  PPID child = "100" ∧ child ∈ treeBuilder "100" ([grandchild] ++ child :: []).
Proof.
  split; [reflexivity|].
  apply (row_of_known_parent_kept "100" [grandchild] [] child).
  left. reflexivity.
Defined.

(** In the result parents come before children. *)
Lemma kept_rows_parents_first (root : string) (ps : list Row) :
  (∀ proc, proc ∈ ps → JS.inherited (PPID proc) = false) →
  ParentsFirst root (treeBuilder root ps).
Proof.
  induction ps as [|row ps IH] using rev_ind; intros Hplain; [done|].
  assert (ParentsFirst root (treeBuilder root ps)) as Hps.
  { apply IH. intros p Hp. apply Hplain, elem_of_app. by left. }
  rewrite children_snoc. destruct (JS.truthy _ _) eqn:Ht; [|done].
  intros i p Hi. apply lookup_app_Some in Hi as [Hi|[Hlen Hi]].
  - destruct (Hps i p Hi) as [?|(j & parent & Hj & Hp & Heq)]; [by left|].
    right. exists j, parent. split; [done|]. split; [|done].
    by apply lookup_app_l_Some.
  - apply list_lookup_singleton_Some in Hi as [_ <-].
    apply truthy_scan in Ht as [?|(parent & Hin & Heq)]; [by left| |].
    + right. fold (treeBuilder root ps) in Hin.
      apply list_elem_of_lookup in Hin as [j Hj].
      exists j, parent. split; [|split; [|done]].
      * apply lookup_lt_Some in Hj. lia.
      * by apply lookup_app_l_Some.
    + apply Hplain, elem_of_app. right. by apply list_elem_of_singleton.
Qed.

(** X3: the scan is idempotent: run on its own result, it keeps every
    row of it. *)
Theorem treeBuilder_idempotent (root : string) (ps : list Row) :
  (∀ proc, proc ∈ ps → JS.inherited (PPID proc) = false) →
  treeBuilder root (treeBuilder root ps) = treeBuilder root ps.
Proof.
  intros Hplain. by apply parents_first_keeps_all, kept_rows_parents_first.
Qed.

Lemma treeBuilder_idempotent_witness :
  (∀ proc, proc ∈ [grandchild; child; grandchild] →
           JS.inherited (PPID proc) = false) ∧
  treeBuilder "100" (treeBuilder "100" [grandchild; child; grandchild]) =
    treeBuilder "100" [grandchild; child; grandchild].
Proof.
  assert (∀ proc, proc ∈ [grandchild; child; grandchild] →
                  JS.inherited (PPID proc) = false) as H.
  { intros proc Hin.
    repeat (apply elem_of_cons in Hin as [->|Hin]; [reflexivity|]).
    by apply elem_of_nil in Hin. }
  split; [exact H|].
  exact (treeBuilder_idempotent "100" [grandchild; child; grandchild] H).
Defined.

Lemma Selects_snoc_inv {A} (P : A → Prop) (l : list A) (x : A) (k : list A) :
  Selects P (l ++ [x]) k →
  (P x ∧ ∃ k', k = k' ++ [x] ∧ Selects P l k') ∨ (¬ P x ∧ Selects P l k).
Proof.
  revert k. induction l as [|y l IH]; intros k H; cbn in H.
  - inversion H as [|? ? k' Hx Hk|? ? ? Hx Hk]; subst; inversion Hk; subst.
    + left. split; [done|]. exists []. split; [done|constructor].
    + right. split; [done|constructor].
  - inversion H as [|? ? k' Hy Hk|? ? ? Hy Hk]; subst.
    + destruct (IH _ Hk) as [[Hx (k'' & -> & Hsel)]|[Hx Hsel]].
      * left. split; [done|]. exists (y :: k''). split; [done|].
        by constructor.
      * right. split; [done|]. by constructor.
    + destruct (IH _ Hk) as [[Hx (k'' & -> & Hsel)]|[Hx Hsel]].
      * left. split; [done|]. exists k''. split; [done|].
        by apply selects_skip.
      * right. split; [done|]. by apply selects_skip.
Qed.

(** Rows the scan does not keep leave no trace: without them the scan
    ends in the same state. *)
Lemma scan_selects (root : string) (P : Row → Prop) (full : list Row) :
  (∀ proc, proc ∈ treeBuilder root full → P proc) →
  ∀ ps rest qs, full = ps ++ rest → Selects P ps qs →
    scan root qs = scan root ps.
Proof.
  intros HP ps. induction ps as [|row ps IH] using rev_ind;
    intros rest qs Hfull Hsel.
  - by inversion Hsel.
  - rewrite <- app_assoc in Hfull.
    apply Selects_snoc_inv in Hsel as [[Hrow (qs' & -> & Hsel)]|[Hrow Hsel]].
    + rewrite !scan_snoc. by rewrite (IH _ _ Hfull Hsel).
    + rewrite scan_snoc, (IH _ _ Hfull Hsel). unfold visit.
      destruct (JS.truthy _ _) eqn:Ht; [|done].
      destruct Hrow. apply HP. subst full.
      eapply elem_of_prefix;
        [|replace (ps ++ [row] ++ rest) with ((ps ++ [row]) ++ rest)
            by (by rewrite <- app_assoc);
          apply children_prefix].
      rewrite children_snoc, Ht. apply elem_of_app. right.
      by apply list_elem_of_singleton.
Qed.

(** X4: the processes of the table that do not descend from the root
    have no effect on the result: the scan of the table restricted to
    the descendants of the root gives the result of the whole table. *)
Theorem unrelated_rows_ignored (root : string) (ps qs : list Row) :
  (∀ proc, proc ∈ ps → JS.inherited (PPID proc) = false) →
  Selects (λ proc, Descendant root ps (PID proc)) ps qs →
  treeBuilder root qs = treeBuilder root ps.
Proof.
  intros Hplain Hsel. unfold treeBuilder. f_equal.
  apply (scan_selects root _ ps (kept_descendant root ps Hplain) ps []);
    [by rewrite app_nil_r|done].
Qed.

Lemma unrelated_rows_ignored_witness :
  (∀ proc, proc ∈ [shell; child; other] → JS.inherited (PPID proc) = false) ∧
  Selects (λ proc, Descendant "100" [shell; child; other] (PID proc))
    [shell; child; other] [child] ∧
  treeBuilder "100" [child] = treeBuilder "100" [shell; child; other].
Proof.
  assert (∀ proc, proc ∈ [shell; child; other] →
                  proc = shell ∨ proc = child ∨ proc = other) as Hrows.
  { intros proc Hin.
    repeat (apply elem_of_cons in Hin as [->|Hin]; [auto|]).
    by apply elem_of_nil in Hin. }
  assert (∀ proc, proc ∈ [shell; child; other] →
                  JS.inherited (PPID proc) = false) as H.
  { intros proc Hin. by destruct (Hrows proc Hin) as [->|[->| ->]]. }
  assert (∀ p, Descendant "100" [shell; child; other] p → p = "200") as Hd.
  { intros p Hp. induction Hp as [proc Hin Heq|proc Hin _ IH].
    - by destruct (Hrows proc Hin) as [->|[->| ->]].
    - by destruct (Hrows proc Hin) as [->|[->| ->]]. }
  assert (Selects (λ proc, Descendant "100" [shell; child; other] (PID proc))
            [shell; child; other] [child]) as Hsel.
  { apply selects_skip; [by intros ?%Hd|].
    apply selects_keep.
    { apply (descendant_child "100" _ child); [|reflexivity].
      apply elem_of_cons. right. apply elem_of_cons. by left. }
    apply selects_skip; [by intros ?%Hd|]. constructor. }
  split; [exact H|]. split; [exact Hsel|].
  exact (unrelated_rows_ignored "100" _ _ H Hsel).
Defined.

(** ** The rows the line parser builds *)

Lemma assign_lookup (row : Row) (k v h : string) :
  JS.assign row k v !! h =
    if decide (k = h ∧ h ≠ "__proto__") then Some v else row !! h.
Proof.
  unfold JS.assign. destruct (String.eqb_spec k "__proto__") as [->|Hk].
  - rewrite decide_False; [done|]. by intros [<- ?].
  - destruct (decide (k = h)) as [->|Hne].
    + rewrite lookup_insert_eq. by rewrite decide_True.
    + rewrite lookup_insert_ne by done. rewrite decide_False; [done|].
      by intros [? _].
Qed.

Lemma fillRow_other (i : nat) (headers columns : list string) (row : Row)
    (k : string) :
  k ∉ headers ∨ k = "__proto__" →
  fillRow i headers columns row !! k = row !! k.
Proof.
  revert i row. induction headers as [|h headers IH]; intros i row Hk; [done|].
  cbn. rewrite IH, assign_lookup.
  - rewrite decide_False; [done|]. intros [-> Hne].
    destruct Hk as [Hk|Hk]; [|done]. apply Hk. by left.
  - destruct Hk as [Hk|Hk]; [left|by right].
    intros Hin. apply Hk. by right.
Qed.

Lemma fillRow_last (i : nat) (pre post columns : list string) (row : Row)
    (h : string) :
  h ∉ post → h ≠ "__proto__" →
  fillRow i (pre ++ h :: post) columns row !! h =
    Some (orEmpty (columns !! (i + length pre)%nat)).
Proof.
  intros Hpost Hh. revert i row.
  induction pre as [|y pre IH]; intros i row; cbn.
  - rewrite fillRow_other by (by left). rewrite assign_lookup.
    rewrite decide_True by done. by rewrite Nat.add_0_r.
  - rewrite IH. by rewrite Nat.add_succ_r.
Qed.

(** X5: in the row built from [headers] and [columns], a header names
    the column that stands where the header occurs last, or the empty
    string when there is no such column; the row has no property but the
    headers, and none for a header [__proto__]. *)
Theorem fillRow_properties
    (pre post columns : list string) (h k : string) :
  h ∉ post → h ≠ "__proto__" →
  k ∉ pre ++ h :: post ∨ k = "__proto__" →
  fillRow 0 (pre ++ h :: post) columns ∅ !! h =
    Some (orEmpty (columns !! length pre)) ∧
  fillRow 0 (pre ++ h :: post) columns ∅ !! k = None.
Proof.
  intros Hpost Hh Hk. split.
  - by rewrite fillRow_last.
  - by rewrite fillRow_other.
Qed.

Lemma fillRow_properties_witness :
  ("PID" ∉ ["STAT"; "PPID"]) ∧ "PID" ≠ "__proto__" ∧
  ("TIME" ∉ ["PID"] ++ "PID" :: ["STAT"; "PPID"] ∨ "TIME" = "__proto__") ∧
  fillRow 0 (["PID"] ++ "PID" :: ["STAT"; "PPID"]) ["7"; "8"; "S"] ∅ !! "PID"
    = Some "8" ∧
  fillRow 0 (["PID"] ++ "PID" :: ["STAT"; "PPID"]) ["7"; "8"; "S"] ∅ !! "PPID"
    = Some "".
Proof.
  assert ("PID" ∉ ["STAT"; "PPID"]) as H1.
  { intros H. repeat (apply elem_of_cons in H as [H|H]; [discriminate|]).
    by apply elem_of_nil in H. }
  assert ("PID" ≠ "__proto__") as H2 by discriminate.
  assert ("TIME" ∉ ["PID"] ++ "PID" :: ["STAT"; "PPID"] ∨ "TIME" = "__proto__")
    as H3.
  { left. intros H. cbn in H.
    repeat (apply elem_of_cons in H as [H|H]; [discriminate|]).
    by apply elem_of_nil in H. }
  split; [exact H1|]. split; [exact H2|]. split; [exact H3|].
  split.
  - exact (proj1 (fillRow_properties ["PID"] ["STAT"; "PPID"] ["7"; "8"; "S"]
                    "PID" "TIME" H1 H2 H3)).
  - by_evaluation.
Defined.

(** X6: when the rows have no [PPID] property (a listing whose header
    line has no such column), no row is kept, whatever the root, unless
    the root is the string [undefined]. *)
Theorem no_ppid_column_empty_result (root : string) (ps : list Row) :
  root ≠ "undefined" →
  (∀ proc, proc ∈ ps → proc !! "PPID" = None) →
  treeBuilder root ps = [].
Proof.
  intros Hroot Hnone.
  induction ps as [|row ps IH] using rev_ind; [done|].
  rewrite children_snoc, IH.
  - destruct (JS.truthy _ _) eqn:Ht; [|done].
    assert (PPID row = "undefined") as Hrow.
    { unfold PPID, JS.propertyKey. rewrite Hnone; [done|].
      apply elem_of_app. right. by apply list_elem_of_singleton. }
    rewrite Hrow in Ht.
    apply truthy_scan in Ht as [Heq|(parent & Hin & _)]; [done| |done].
    fold (treeBuilder root ps) in Hin. rewrite IH in Hin.
    + by apply elem_of_nil in Hin.
    + intros p Hp. apply Hnone, elem_of_app. by left.
  - intros p Hp. apply Hnone, elem_of_app. by left.
Qed.

Lemma no_ppid_column_empty_result_witness :
  let ps := [fillRow 0 ["PID"; "COMMAND"] ["1"; "init"] ∅;
             fillRow 0 ["PID"; "COMMAND"] ["undefined"; "sh"] ∅] in
  "1" ≠ "undefined" ∧ (∀ proc, proc ∈ ps → proc !! "PPID" = None) ∧
  treeBuilder "1" ps = [].
Proof.
  intros ps.
  assert ("1" ≠ "undefined") as H1 by discriminate.
  assert (∀ proc, proc ∈ ps → proc !! "PPID" = None) as H2.
  { intros proc Hin.
    repeat (apply elem_of_cons in Hin as [->|Hin]; [reflexivity|]).
    by apply elem_of_nil in Hin. }
  split; [exact H1|]. split; [exact H2|].
  exact (no_ppid_column_empty_result "1" ps H1 H2).
Defined.

(** ** The headers *)

Lemma lineParser_skipped (isWindows : bool) (headers : option (list string))
    (line : string) :
  skipped line = true → lineParser isWindows headers line = (headers, Drop).
Proof. unfold lineParser, skipped. by intros ->. Qed.

Lemma lineParser_header (isWindows : bool) (line : string) :
  skipped line = false →
  lineParser isWindows None line =
    (Some (normalizeHeader <$>
             (if isWindows then parseCsvLine (JS.trim line)
              else JS.splitWhiteSpace (JS.trim line))), Drop).
Proof. unfold lineParser, skipped. by intros ->. Qed.

Lemma lineParser_headers_kept (isWindows : bool) (hs : list string)
    (line : string) :
  (lineParser isWindows (Some hs) line).1 = Some hs.
Proof.
  unfold lineParser. destruct (_ || _); [done|]. by destruct (_ <? _)%nat.
Qed.

Lemma headersAfter_kept (isWindows : bool) (hs : list string)
    (lines : list string) :
  headersAfter isWindows (Some hs) lines = Some hs.
Proof.
  induction lines as [|line lines IH]; [done|].
  cbn. by rewrite lineParser_headers_kept.
Qed.

(** X7: the headers are read once, from the first line that is neither
    empty nor a separator: the lines up to that one give no row, and no
    later line changes the headers, not even one that looks like a
    header. *)
Theorem headers_read_once
    (isWindows : bool) (pre post : list string) (line : string) :
  Forall (λ l, skipped l = true) pre →
  skipped line = false →
  let hs := normalizeHeader <$>
              (if isWindows then parseCsvLine (JS.trim line)
               else JS.splitWhiteSpace (JS.trim line)) in
  headersAfter isWindows None pre = None ∧
  headersAfter isWindows None (pre ++ line :: post) = Some hs ∧
  mapLines isWindows None (pre ++ line :: post) =
    mapLines isWindows (Some hs) post.
Proof.
  intros Hpre Hline hs.
  induction Hpre as [|l pre Hl _ IH]; cbn.
  - rewrite lineParser_header by done. cbn.
    split; [done|]. split; [|done]. apply headersAfter_kept.
  - by rewrite lineParser_skipped.
Qed.

Lemma headers_read_once_witness :
  let pre := [""; "  "; "--------------------"] in
  let line := "  PPID   PID STAT COMM" in
  let post := ["   PID  PPID COMMAND STAT"; "     1   100 S    sh"] in
  Forall (λ l, skipped l = true) pre ∧ skipped line = false ∧
  headersAfter false None (pre ++ line :: post) = Some psHeaders.
Proof.
  intros pre line post.
  assert (Forall (λ l, skipped l = true) pre) as H1.
  { repeat (apply Forall_cons; split; [reflexivity|]). by apply Forall_nil. }
  assert (skipped line = false) as H2 by reflexivity.
  split; [exact H1|]. split; [exact H2|].
  exact (proj1 (proj2 (headers_read_once false pre post line H1 H2))).
Defined.

(** ** The rows of a POSIX listing *)

Lemma PPID_mkRow (ppid pid stat command : string) :
  PPID (mkRow ppid pid stat command) = ppid.
Proof.
  unfold PPID, JS.propertyKey, mkRow. rewrite !assign_lookup.
  rewrite !decide_False by (by intros [? _]). by rewrite decide_True.
Qed.

Lemma PID_mkRow (ppid pid stat command : string) :
  PID (mkRow ppid pid stat command) = pid.
Proof.
  unfold PID, JS.propertyKey, mkRow. rewrite !assign_lookup.
  rewrite !decide_False by (by intros [? _]). by rewrite decide_True.
Qed.

Lemma run_numeric (s : string) : run JS.isDigit s → JS.numeric s = true.
Proof.
  intros [Hne Hall]. unfold JS.numeric. rewrite Hall.
  by destruct (String.eqb_spec s "").
Qed.

(** A line matching the pattern is emitted as a row under the POSIX
    headers, unless the separator test catches it. *)
Lemma lineParser_posix_row (line ppid pid stat command : string) :
  PsLine (JS.trim line) ppid pid stat command →
  JS.includes "----" (JS.trim line) = false →
  lineParser false (Some psHeaders) line =
    (Some psHeaders, Emit (mkRow ppid pid stat command)).
Proof.
  intros Hline Hdash. unfold lineParser, psColumns.
  rewrite Hdash, (psPattern_matches _ _ _ _ _ Hline).
  assert ((String.length (JS.trim line) =? 0)%nat = false) as ->; [|done].
  apply Nat.eqb_neq.
  destruct Hline as (w1 & w2 & w3 & -> & Hppid & _).
  apply run_length in Hppid. rewrite length_append. lia.
Qed.

(** Conversely a row emitted under the POSIX headers comes from such a
    line. *)
Lemma lineParser_posix_emit (line : string) (headers : option (list string))
    (row : Row) :
  lineParser false (Some psHeaders) line = (headers, Emit row) →
  ∃ ppid pid stat command,
    PsLine (JS.trim line) ppid pid stat command ∧
    row = mkRow ppid pid stat command.
Proof.
  unfold lineParser, psColumns. destruct (_ || _); [done|].
  destruct (JS.matchFrom psPattern (JS.trim line)) as [columns|] eqn:H;
    [|done].
  apply psPattern_sound in H as (ppid & pid & stat & command & Hline & ->);
    [|apply trim_startsWith|apply trim_endsWith].
  cbn. intros [= _ <-]. by exists ppid, pid, stat, command.
Qed.

Lemma posix_rows_shape (lines : list string) (rows : list Row) :
  mapLines false (Some psHeaders) lines = inl rows →
  Forall (λ row, ∃ ppid pid stat command,
            row = mkRow ppid pid stat command ∧
            JS.numeric ppid = true ∧ JS.numeric pid = true ∧
            run JS.notWhiteSpace stat ∧ command ≠ "") rows.
Proof.
  revert rows. induction lines as [|line lines IH]; intros rows; cbn.
  - intros [= <-]. by apply Forall_nil.
  - pose proof (lineParser_headers_kept false psHeaders line) as Hkept.
    pose proof (lineParser_posix_emit line) as Hemit.
    destruct (lineParser false (Some psHeaders) line) as [headers [|row|err]];
      cbn in Hkept; subst headers; [by apply IH| |done].
    destruct (mapLines false (Some psHeaders) lines) as [rows'|] eqn:Hrest;
      [|done].
    intros [= <-]. apply Forall_cons. split; [|by apply IH].
    destruct (Hemit _ _ eq_refl) as (ppid & pid & stat & command & Hline & ->).
    destruct Hline as (w1 & w2 & w3 & _ & Hppid & _ & Hpid & _ & Hstat & _ &
                       [Hcommand _] & _).
    exists ppid, pid, stat, command.
    repeat split; try done; try apply Hstat; by apply run_numeric.
Qed.

(** X8: under the POSIX headers every row the line parser emits has the
    four fields, with PPID and PID non-empty strings of digits, a STAT
    without white space and a non-empty COMMAND; so its PPID and PID
    are never names inherited from [Object.prototype]. *)
Theorem posix_rows_well_formed (lines : list string) (rows : list Row) :
  mapLines false (Some psHeaders) lines = inl rows →
  Forall (λ row, ∃ ppid pid stat command,
            row = mkRow ppid pid stat command ∧
            JS.numeric ppid = true ∧ JS.numeric pid = true ∧
            run JS.notWhiteSpace stat ∧ command ≠ "") rows ∧
  Forall (λ row, JS.numeric (PPID row) = true ∧ JS.numeric (PID row) = true ∧
                 JS.inherited (PPID row) = false ∧
                 JS.inherited (PID row) = false) rows.
Proof.
  intros H. pose proof (posix_rows_shape lines rows H) as Hshape.
  split; [done|]. eapply Forall_impl; [exact Hshape|].
  intros row (ppid & pid & stat & command & -> & Hppid & Hpid & _).
  rewrite PPID_mkRow, PID_mkRow.
  repeat split; try done; by apply numeric_not_inherited.
Qed.

Lemma posix_rows_well_formed_witness :
  let lines := ["     1   100 S    sh -c x"; "  oops"; "   100   200 R+   node"] in
  let rows := [mkRow "1" "100" "S" "sh -c x"; mkRow "100" "200" "R+" "node"] in
  mapLines false (Some psHeaders) lines = inl rows ∧
  Forall (λ row, ∃ ppid pid stat command,
            row = mkRow ppid pid stat command ∧
            JS.numeric ppid = true ∧ JS.numeric pid = true ∧
            run JS.notWhiteSpace stat ∧ command ≠ "") rows.
Proof.
  intros lines rows.
  assert (mapLines false (Some psHeaders) lines = inl rows) as H
    by by_evaluation.
  split; [exact H|]. exact (proj1 (posix_rows_well_formed lines rows H)).
Defined.

(** X9: on POSIX, once the header line has given the four headers, the
    query hands its handler the scan of the parsed rows, and every
    process it reports descends from the requested PID in the parsed
    table: the rows need no further assumption. *)
Theorem posix_query_reports_descendants
    (header : string) (data : list string) (pid : string) (rows : list Row) :
  lineParser false None header = (Some psHeaders, Drop) →
  mapLines false (Some psHeaders) data = inl rows →
  childrenOfPid false (header :: data) (VString pid) VFunction =
    Returns [processLister false] (Results (treeBuilder pid rows)) ∧
  ∀ proc, proc ∈ treeBuilder pid rows → Descendant pid rows (PID proc).
Proof.
  intros Hheader Hdata. split.
  - unfold childrenOfPid, pipeline. cbn. by rewrite Hheader, Hdata.
  - apply kept_descendant. intros proc Hin.
    pose proof (posix_rows_shape data rows Hdata) as Hrows.
    rewrite Forall_forall in Hrows.
    destruct (Hrows proc Hin) as (ppid & p & stat & command & -> & Hppid & _).
    rewrite PPID_mkRow. by apply numeric_not_inherited.
Qed.

Lemma posix_query_reports_descendants_witness :
  let header := "  PPID   PID STAT COMMAND" in
  let data := ["     1   100 S    sh -c x"; "   100   200 R+   node"] in
  let rows := [mkRow "1" "100" "S" "sh -c x"; mkRow "100" "200" "R+" "node"] in
  lineParser false None header = (Some psHeaders, Drop) ∧
  mapLines false (Some psHeaders) data = inl rows ∧
  childrenOfPid false (header :: data) (VString "1") VFunction =
    Returns [processLister false] (Results (treeBuilder "1" rows)).
Proof.
  intros header data rows.
  assert (lineParser false None header = (Some psHeaders, Drop)) as H1
    by by_evaluation.
  assert (mapLines false (Some psHeaders) data = inl rows) as H2
    by by_evaluation.
  split; [exact H1|]. split; [exact H2|].
  exact (proj1 (posix_query_reports_descendants header data "1" rows H1 H2)).
Defined.

(** ** [trim] and the line parser *)

Lemma span_none (p : ascii → bool) (s : string) :
  startsWith p s = false → JS.span p s = ("", s).
Proof. destruct s as [|c s]; [done|]. cbn. by intros ->. Qed.

Lemma trimEnd_id (s : string) :
  endsWith JS.isWhiteSpace s = false → JS.trimEnd s = s.
Proof.
  induction s as [|c s IH]; [done|]. cbn [endsWith JS.trimEnd].
  destruct s as [|c' s].
  - intros ->. by cbn.
  - intros H. rewrite (IH H). by rewrite andb_false_r.
Qed.

Lemma trim_id (s : string) :
  startsWith JS.isWhiteSpace s = false → endsWith JS.isWhiteSpace s = false →
  JS.trim s = s.
Proof.
  intros Hs He. unfold JS.trim, JS.trimStart. rewrite span_none by done.
  by apply trimEnd_id.
Qed.

Lemma trimEnd_spaces (w : string) :
  JS.all JS.isWhiteSpace w = true → JS.trimEnd w = "".
Proof.
  induction w as [|c w IH]; [done|]. cbn.
  intros [Hc Hw]%andb_true_iff. by rewrite (IH Hw), Hc.
Qed.

Lemma trimEnd_append_spaces (s w : string) :
  JS.all JS.isWhiteSpace w = true → JS.trimEnd (s +:+ w) = JS.trimEnd s.
Proof.
  intros Hw. induction s as [|c s IH].
  - rewrite append_nil_l. by apply trimEnd_spaces.
  - rewrite append_cons. cbn [JS.trimEnd]. by rewrite IH.
Qed.

Lemma trimStart_spaces_append (w s : string) :
  JS.all JS.isWhiteSpace w = true → JS.trimStart (w +:+ s) = JS.trimStart s.
Proof.
  intros Hw. unfold JS.trimStart. induction w as [|c w IH]; [done|].
  cbn in Hw. apply andb_true_iff in Hw as [Hc Hw].
  rewrite append_cons. cbn. rewrite Hc. cbn. by apply IH.
Qed.

Lemma trim_append_spaces (s w : string) :
  JS.all JS.isWhiteSpace w = true → JS.trim (s +:+ w) = JS.trim s.
Proof.
  intros Hw. unfold JS.trim, JS.trimStart. induction s as [|c s IH].
  - rewrite append_nil_l.
    by rewrite <- (append_nil_r w), span_run.
  - rewrite append_cons. cbn. destruct (JS.isWhiteSpace c); cbn [snd].
    + exact IH.
    + rewrite <- append_cons. by apply trimEnd_append_spaces.
Qed.

(** X10: white space around a line plays no part: the line parser
    answers for a line between two runs of white space as it does for
    the line. *)
Theorem surrounding_white_space_ignored
    (isWindows : bool) (headers : option (list string))
    (lead line trail : string) :
  JS.all JS.isWhiteSpace lead = true →
  JS.all JS.isWhiteSpace trail = true →
  JS.trim (lead +:+ line +:+ trail) = JS.trim line ∧
  lineParser isWindows headers (lead +:+ line +:+ trail) =
    lineParser isWindows headers line.
Proof.
  intros Hlead Htrail.
  assert (JS.trim (lead +:+ line +:+ trail) = JS.trim line) as Htrim.
  { rewrite <- append_assoc, trim_append_spaces by done.
    unfold JS.trim. by rewrite trimStart_spaces_append. }
  split; [done|]. unfold lineParser. by rewrite Htrim.
Qed.

Lemma surrounding_white_space_ignored_witness :
  JS.all JS.isWhiteSpace (String "009"%char "  ") = true ∧
  JS.all JS.isWhiteSpace (String carriageReturn "") = true ∧
  lineParser false (Some psHeaders)
    (String "009"%char "  " +:+ "1 100 S sh" +:+ String carriageReturn "") =
  lineParser false (Some psHeaders) "1 100 S sh".
Proof.
  split; [reflexivity|]. split; [reflexivity|].
  apply (surrounding_white_space_ignored false (Some psHeaders)
           (String "009"%char "  ") "1 100 S sh" (String carriageReturn ""));
    reflexivity.
Defined.

(** ** Printing a table and reading it back *)

Lemma append_not_nil_r (x y : string) : y ≠ "" → x +:+ y ≠ "".
Proof. intros Hy. destruct x; [done|by rewrite append_cons]. Qed.

Lemma endsWith_cons (p : ascii → bool) (c : ascii) (s : string) :
  s ≠ "" → endsWith p (String c s) = endsWith p s.
Proof. by destruct s. Qed.

Lemma endsWith_append (p : ascii → bool) (x y : string) :
  y ≠ "" → endsWith p (x +:+ y) = endsWith p y.
Proof.
  intros Hy. induction x as [|c x IH]; [done|].
  rewrite append_cons, endsWith_cons; [done|].
  destruct x; [by rewrite append_nil_l|by rewrite append_cons].
Qed.

Lemma mapLines_emit_all (isWindows : bool) (hs : list string)
    (lines : list string) (rows : list Row) :
  Forall2 (λ line row, lineParser isWindows (Some hs) line = (Some hs, Emit row))
    lines rows →
  mapLines isWindows (Some hs) lines = inl rows.
Proof.
  induction 1 as [|line row lines rows Hline _ IH]; [done|].
  cbn. by rewrite Hline, IH.
Qed.

Lemma csvDataLine_row (p : Process) :
  csvPrintable p →
  lineParser true (Some psHeaders) (csvDataLine p) =
    (Some psHeaders, Emit (rowOf p)).
Proof.
  intros (Hppid & Hpid & Hstat & Hcommand & Hdash).
  assert (JS.trim (csvDataLine p) = csvDataLine p) as Htrim.
  { apply trim_id; [done|]. unfold csvDataLine, renderLine, renderCell.
    cbn [fst snd].
    repeat (rewrite ?append_cons, ?endsWith_cons, ?endsWith_append;
            try done).
    all: by apply append_not_nil_r. }
  assert (parseCsvLine (csvDataLine p) =
            [procPPID p; procPID p; procSTAT p; procCOMMAND p]) as Hcols.
  { unfold parseCsvLine, csvDataLine. rewrite parseCsvFrom_line; [done|done|].
    repeat (apply Forall_cons; split; [by split|]). by apply Forall_nil. }
  unfold lineParser. rewrite Htrim, Hdash, Hcols. done.
Qed.

(** X12: a Windows listing read back: from the header line
    [ParentProcessId, ProcessId, Status, Name] followed by one line for
    each process, every field between quotes (no quote inside a field,
    no run of four dashes in a line), the line parser gives the rows of
    the processes, in order, commas and white space of the names kept,
    and the query the scan of those rows. *)
Theorem windows_listing_round_trip (pid : string) (table : list Process) :
  Forall csvPrintable table →
  mapLines true None (csvHeaderLine :: (csvDataLine <$> table)) =
    inl (rowOf <$> table) ∧
  pipeline true pid (csvHeaderLine :: (csvDataLine <$> table)) =
    Results (treeBuilder pid (rowOf <$> table)).
Proof.
  intros Htable.
  assert (mapLines true None (csvHeaderLine :: (csvDataLine <$> table)) =
            inl (rowOf <$> table)) as Hrows.
  { change (mapLines true (Some psHeaders) (csvDataLine <$> table) =
              inl (rowOf <$> table)).
    apply mapLines_emit_all, Forall2_fmap, Forall_Forall2_diag.
    eapply Forall_impl; [done|]. intros p Hp. by apply csvDataLine_row. }
  split; [done|]. unfold pipeline. by rewrite Hrows.
Qed.

Lemma windows_listing_round_trip_witness :
  let table := [mkProcess "0" "0" "" "System Idle Process";
                mkProcess "0" "1234" "" " C:\Program Files\App, Inc\app.exe "] in
  Forall csvPrintable table ∧
  pipeline true "0" (csvHeaderLine :: (csvDataLine <$> table)) =
    Results (treeBuilder "0" (rowOf <$> table)).
Proof.
  intros table.
  assert (Forall csvPrintable table) as H.
  { repeat (apply Forall_cons; split;
              [repeat (split; [reflexivity|]); reflexivity|]).
    by apply Forall_nil. }
  split; [exact H|]. exact (proj2 (windows_listing_round_trip "0" table H)).
Defined.

(** ** More on [parseCsvLine] *)

Lemma parseCsvFrom_fields (done fields : list string) (current : string)
    (inQuote : bool) (line : string) :
  parseCsvFrom (done ++ fields) current inQuote line =
    done ++ parseCsvFrom fields current inQuote line.
Proof.
  revert fields current inQuote.
  induction line as [|c line IH]; intros fields current inQuote; cbn.
  - by rewrite app_assoc.
  - destruct (Ascii.eqb c quote); [apply IH|].
    destruct (Ascii.eqb c comma && negb inQuote); [|apply IH].
    by rewrite <- app_assoc, IH.
Qed.

(** Reading a line up to some point leaves the loop with the fields
    closed so far, the field being read and the quote state. *)
Lemma parseCsvFrom_append (fields : list string) (current : string)
    (inQuote : bool) (a rest : string) :
  ∃ fields' current',
    parseCsvFrom fields current inQuote a = fields' ++ [current'] ∧
    parseCsvFrom fields current inQuote (a +:+ rest) =
      parseCsvFrom fields' current' (quoteState inQuote a) rest.
Proof.
  revert fields current inQuote.
  induction a as [|c a IH]; intros fields current inQuote.
  - exists fields, current. by rewrite append_nil_l.
  - rewrite append_cons. cbn.
    destruct (Ascii.eqb c quote); [apply IH|].
    destruct (Ascii.eqb c comma && negb inQuote); apply IH.
Qed.

(** X13: [parseCsvLine] on two lines joined by a comma gives the fields
    of the first followed by the fields of the second, when the quotes
    of the first are balanced. *)
Theorem parseCsvLine_comma (a b : string) :
  quoteState false a = false →
  parseCsvLine (a +:+ String comma b) = parseCsvLine a ++ parseCsvLine b.
Proof.
  intros Hbalanced. unfold parseCsvLine.
  destruct (parseCsvFrom_append [] "" false a (String comma b))
    as (fields & current & -> & ->).
  rewrite Hbalanced. cbn [parseCsvFrom].
  replace (Ascii.eqb comma quote) with false by done.
  replace (Ascii.eqb comma comma) with true by done. cbn [andb negb].
  rewrite <- (app_nil_r (fields ++ [current])) at 1.
  apply parseCsvFrom_fields.
Qed.

Lemma parseCsvLine_comma_witness :
  quoteState false csvLine = false ∧
  parseCsvLine (csvLine +:+ String comma csvLine) =
    parseCsvLine csvLine ++ parseCsvLine csvLine.
Proof.
  split; [reflexivity|].
  apply (parseCsvLine_comma csvLine csvLine). reflexivity.
Defined.

(** X14: a quote that is never closed takes the rest of the line, commas
    included, into the field being read; nothing is reported. *)
Theorem parseCsvLine_unclosed_quote
    (a v : string) (fields : list string) (current : string) :
  quoteState false a = false → noQuote v = true →
  parseCsvLine a = fields ++ [current] →
  parseCsvLine (a +:+ String quote v) = fields ++ [current +:+ v].
Proof.
  intros Hbalanced Hv Ha. unfold parseCsvLine in *.
  destruct (parseCsvFrom_append [] "" false a (String quote v))
    as (fields' & current' & Ha' & ->).
  rewrite Ha in Ha'. apply app_inj_tail in Ha' as [<- <-].
  rewrite Hbalanced. cbn [parseCsvFrom].
  replace (Ascii.eqb quote quote) with true by done. cbn [negb].
  rewrite <- (append_nil_r v) at 1.
  rewrite parseCsvFrom_inside by done. by cbn.
Qed.

Lemma parseCsvLine_unclosed_quote_witness :
  quoteState false "1,2," = false ∧ noQuote "a, b,c" = true ∧
  parseCsvLine "1,2," = ["1"; "2"] ++ [""] ∧
  parseCsvLine ("1,2," +:+ String quote "a, b,c") =
    ["1"; "2"] ++ ["" +:+ "a, b,c"].
Proof.
  split; [reflexivity|]. split; [reflexivity|]. split; [reflexivity|].
  apply (parseCsvLine_unclosed_quote "1,2," "a, b,c" ["1"; "2"] "");
    reflexivity.
Defined.

(** ** More on [normalizeHeader] *)

Lemma normalizeHeader_other (str : string) :
  str ∉ nativeHeaders → normalizeHeader str = str.
Proof.
  intros H. unfold normalizeHeader.
  repeat match goal with
         | |- context [String.eqb str ?name] =>
             destruct (String.eqb_spec str name) as [->|_];
             [exfalso; apply H; repeat constructor|]
         end.
  reflexivity.
Qed.

(** X15: [normalizeHeader] never returns one of the names it replaces,
    and applying it twice is applying it once. *)
Theorem normalizeHeader_idempotent (str : string) :
  (normalizeHeader str ∉ nativeHeaders) ∧
  normalizeHeader (normalizeHeader str) = normalizeHeader str.
Proof.
  assert (normalizeHeader str ∉ nativeHeaders) as Hout.
  { destruct (decide (str ∈ nativeHeaders)) as [Hin|Hnot].
    - unfold nativeHeaders in Hin.
      repeat (apply elem_of_cons in Hin as [->|Hin];
              [intros H; cbn in H;
               repeat (apply elem_of_cons in H as [H|H]; [discriminate|]);
               by apply elem_of_nil in H|]).
      by apply elem_of_nil in Hin.
    - by rewrite normalizeHeader_other. }
  split; [done|]. by apply normalizeHeader_other.
Qed.

(** ** The PID given as a number *)




(** ** The number of rows *)

Lemma mapLines_length (isWindows : bool) (headers : option (list string))
    (lines : list string) (rows : list Row) :
  mapLines isWindows headers lines = inl rows →
  (length rows ≤ length lines)%nat.
Proof.
  revert headers rows.
  induction lines as [|line lines IH]; intros headers rows; cbn.
  - by intros [= <-].
  - destruct (lineParser isWindows headers line) as [headers' [|row|err]];
      [| |done].
    + intros H%IH. lia.
    + destruct (mapLines isWindows headers' lines) as [rows'|] eqn:Hrest;
        [|done].
      intros [= <-]. apply IH in Hrest. cbn. lia.
Qed.

(** X17: the line parser gives at most one row for each line, and none
    for the first line of a listing: the rows are fewer than the
    lines. *)
Theorem fewer_rows_than_lines
    (isWindows : bool) (line : string) (lines : list string) (rows : list Row) :
  mapLines isWindows None (line :: lines) = inl rows →
  (length rows < length (line :: lines))%nat.
Proof.
  cbn. unfold lineParser. destruct (_ || _); intros H%mapLines_length; lia.
Qed.

Lemma fewer_rows_than_lines_witness :
  mapLines true None [csvHeaderLine; csvLine; ""] =
    inl [mkRow "1234" "5678" "" "C:\Program Files\App, Inc\app.exe"] ∧
  (length [mkRow "1234" "5678" "" "C:\Program Files\App, Inc\app.exe"] <
   length [csvHeaderLine; csvLine; ""])%nat.
Proof.
  assert (mapLines true None [csvHeaderLine; csvLine; ""] =
            inl [mkRow "1234" "5678" "" "C:\Program Files\App, Inc\app.exe"])
    as H by by_evaluation.
  split; [exact H|].
  exact (fewer_rows_than_lines true csvHeaderLine [csvLine; ""] _ H).
Defined.

(** ** Splitting the header line *)

Lemma splitFrom_run (cur token rest : string) :
  JS.all JS.notWhiteSpace token = true →
  JS.splitFrom cur false (token +:+ rest) =
    JS.splitFrom (cur +:+ token) false rest.
Proof.
  revert cur. induction token as [|c token IH]; intros cur Hall.
  - by rewrite append_nil_l, append_nil_r.
  - cbn in Hall. apply andb_true_iff in Hall as [Hc Hall].
    apply other_not_space in Hc. rewrite append_cons. cbn. rewrite Hc.
    rewrite IH by done. by rewrite append_snoc.
Qed.

Lemma splitFrom_token (cur : string) (inSep : bool) (token rest : string) :
  run JS.notWhiteSpace token →
  JS.splitFrom cur inSep (token +:+ rest) =
    JS.splitFrom (cur +:+ token) false rest.
Proof.
  intros [Hne Hall]. destruct token as [|c token]; [done|]. clear Hne.
  cbn in Hall. apply andb_true_iff in Hall as [Hc Hall].
  apply other_not_space in Hc. rewrite append_cons. cbn. rewrite Hc.
  rewrite splitFrom_run by done. by rewrite append_snoc.
Qed.

Lemma splitFrom_space (cur : string) (space rest : string) :
  run JS.isWhiteSpace space →
  JS.splitFrom cur false (space +:+ rest) = cur :: JS.splitFrom "" true rest.
Proof.
  intros [Hne Hall]. destruct space as [|c space]; [done|]. clear Hne.
  cbn in Hall. apply andb_true_iff in Hall as [Hc Hall].
  rewrite append_cons. cbn. rewrite Hc. f_equal.
  induction space as [|c' space IH]; [done|].
  cbn in Hall. apply andb_true_iff in Hall as [Hc' Hall].
  rewrite append_cons. cbn. rewrite Hc'. by apply IH.
Qed.

Lemma splitFrom_joinTokens (inSep : bool) (tokens : list (string * string))
    (last : string) :
  Forall (λ t, run JS.notWhiteSpace t.1 ∧ run JS.isWhiteSpace t.2) tokens →
  run JS.notWhiteSpace last →
  JS.splitFrom "" inSep (joinTokens tokens last) = (fst <$> tokens) ++ [last].
Proof.
  intros Htokens Hlast. revert inSep.
  induction Htokens as [|[token space] tokens [Ht Hs] _ IH]; intros inSep; cbn.
  - pose proof (splitFrom_token "" inSep last "" Hlast) as H.
    rewrite append_nil_r in H. by rewrite H.
  - rewrite splitFrom_token, splitFrom_space by done.
    rewrite append_nil_l. f_equal. apply IH.
Qed.

(** X18: [split(/\s+/)] gives back the tokens of a line made of tokens
    with runs of white space between them; so the header line of [ps],
    however its columns are padded, gives the four POSIX headers. *)
Theorem splitWhiteSpace_tokens
    (tokens : list (string * string)) (last : string) (s1 s2 s3 : string) :
  Forall (λ t, run JS.notWhiteSpace t.1 ∧ run JS.isWhiteSpace t.2) tokens →
  run JS.notWhiteSpace last →
  run JS.isWhiteSpace s1 → run JS.isWhiteSpace s2 → run JS.isWhiteSpace s3 →
  JS.splitWhiteSpace (joinTokens tokens last) = (fst <$> tokens) ++ [last] ∧
  normalizeHeader <$>
    JS.splitWhiteSpace
      (joinTokens [("PPID", s1); ("PID", s2); ("STAT", s3)] "COMM") = psHeaders.
Proof.
  intros Htokens Hlast H1 H2 H3. split.
  - by apply splitFrom_joinTokens.
  - unfold JS.splitWhiteSpace. rewrite splitFrom_joinTokens; [done| |done].
    repeat (apply Forall_cons; split; [by split|]). by apply Forall_nil.
Qed.

Lemma splitWhiteSpace_tokens_witness :
  Forall (λ t, run JS.notWhiteSpace t.1 ∧ run JS.isWhiteSpace t.2)
    [("COMMAND", "   "); ("PID", " ")] ∧
  run JS.notWhiteSpace "PPID" ∧ run JS.isWhiteSpace " " ∧
  JS.splitWhiteSpace (joinTokens [("COMMAND", "   "); ("PID", " ")] "PPID") =
    ["COMMAND"; "PID"] ++ ["PPID"].
Proof.
  assert (Forall (λ t, run JS.notWhiteSpace t.1 ∧ run JS.isWhiteSpace t.2)
            [("COMMAND", "   "); ("PID", " ")]) as H.
  { repeat (apply Forall_cons; split; [by split|]). by apply Forall_nil. }
  assert (run JS.notWhiteSpace "PPID") as Hl by (by split).
  assert (run JS.isWhiteSpace " ") as Hs by (by split).
  split; [exact H|]. split; [exact Hl|]. split; [exact Hs|].
  exact (proj1 (splitWhiteSpace_tokens _ "PPID" " " " " " " H Hl Hs Hs Hs)).
Defined.

(** ** The lines the parser skips *)

Lemma prefix_append (sub s : string) :
  String.prefix sub s = true ↔ ∃ b, s = sub +:+ b.
Proof.
  revert s. induction sub as [|c sub IH]; intros s.
  - destruct s; (split; [intros _; by eexists|done]).
  - destruct s as [|c' s].
    + split; [done|]. intros [b Hb]. by rewrite append_cons in Hb.
    + change (String.prefix (String c sub) (String c' s))
        with (if ascii_dec c c' then String.prefix sub s else false).
      destruct (ascii_dec c c') as [->|Hne].
      * rewrite IH. split; intros [b Hb]; exists b.
        -- by rewrite append_cons, Hb.
        -- rewrite append_cons in Hb. by injection Hb.
      * split; [done|]. intros [b Hb]. rewrite append_cons in Hb.
        injection Hb as ? ?. by destruct Hne.
Qed.

Lemma includes_append (sub s : string) :
  JS.includes sub s = true ↔ ∃ a b, s = a +:+ sub +:+ b.
Proof.
  induction s as [|c s IH].
  - change (JS.includes sub "") with (String.prefix sub "" || false).
    rewrite orb_false_r, prefix_append. split.
    + intros [b Hb]. by exists "", b.
    + intros (a & b & Hab). destruct a; [by exists b|].
      by rewrite append_cons in Hab.
  - change (JS.includes sub (String c s))
      with (String.prefix sub (String c s) || JS.includes sub s).
    rewrite orb_true_iff, IH, prefix_append. split.
    + intros [[b Hb]|(a & b & Hab)].
      * by exists "", b.
      * exists (String c a), b. by rewrite append_cons, Hab.
    + intros (a & b & Hab). destruct a as [|c' a].
      * left. by exists b.
      * right. rewrite append_cons in Hab. injection Hab as _ Hab.
        by exists a, b.
Qed.

(** X19: the line parser skips a line exactly when the line is empty
    once trimmed or holds four dashes in a row, whatever else it holds:
    such a line gives no row and leaves the headers as they are, also
    when no header was read yet and also when it is a data line. *)
Theorem skipped_lines (isWindows : bool) (headers : option (list string))
    (line : string) :
  (skipped line = true ↔
   JS.trim line = "" ∨ ∃ a b, JS.trim line = a +:+ "----" +:+ b) ∧
  (skipped line = true → lineParser isWindows headers line = (headers, Drop)).
Proof.
  split; [|apply lineParser_skipped].
  unfold skipped. rewrite orb_true_iff, includes_append, Nat.eqb_eq.
  split; (intros [H|H]; [left|by right]).
  - by destruct (JS.trim line).
  - by rewrite H.
Qed.

Lemma skipped_lines_witness :
  skipped "  977  1204 S    foo----bar " = true ∧
  lineParser false (Some psHeaders) "  977  1204 S    foo----bar " =
    (Some psHeaders, Drop).
Proof.
  assert (skipped "  977  1204 S    foo----bar " = true) as H by reflexivity.
  split; [exact H|].
  exact (proj2 (skipped_lines false (Some psHeaders) _) H).
Defined.

(** ** Printing a POSIX table and reading it back *)

Lemma all_impl (p q : ascii → bool) (s : string) :
  (∀ c, p c = true → q c = true) → JS.all p s = true → JS.all q s = true.
Proof.
  intros Hpq. induction s as [|c s IH]; [done|]. cbn.
  intros [Hc Hs]%andb_true_iff. by rewrite (Hpq c Hc), IH.
Qed.

Lemma trim_surrounded (lead core trail : string) :
  JS.all JS.isWhiteSpace lead = true → JS.all JS.isWhiteSpace trail = true →
  startsWith JS.isWhiteSpace core = false →
  endsWith JS.isWhiteSpace core = false →
  JS.trim (lead +:+ core +:+ trail) = core.
Proof.
  intros Hlead Htrail Hstart Hend.
  rewrite <- append_assoc, trim_append_spaces by done.
  unfold JS.trim. rewrite trimStart_spaces_append by done.
  by apply trim_id.
Qed.

(** A line holds what any part of it holds. *)
Lemma includes_inside (sub lead core trail : string) :
  JS.includes sub (lead +:+ core +:+ trail) = false →
  JS.includes sub core = false.
Proof.
  intros H. destruct (JS.includes sub core) eqn:Hcore; [|done].
  apply includes_append in Hcore as (a & b & ->).
  rewrite <- H. symmetry. apply includes_append.
  exists (lead +:+ a), (b +:+ trail). by rewrite !append_assoc.
Qed.

Lemma no_dash_includes (s : string) :
  JS.all (λ c, negb (Ascii.eqb c "-")) s = true →
  JS.includes "----" s = false.
Proof.
  intros Hall. destruct (JS.includes "----" s) eqn:H; [|done].
  apply includes_append in H as (a & b & ->).
  rewrite !all_append in Hall.
  apply andb_true_iff in Hall as [_ Hall].
  by apply andb_true_iff in Hall as [Hall _].
Qed.

Lemma space_not_dash (c : ascii) :
  JS.isWhiteSpace c = true → negb (Ascii.eqb c "-") = true.
Proof. destruct c as [[] [] [] [] [] [] [] []]; vm_compute; congruence. Qed.

Lemma psLine_trim (pad : Padding) (c1 c2 c3 c4 : string) :
  padded pad →
  c1 ≠ "" → startsWith JS.isWhiteSpace c1 = false →
  c4 ≠ "" → endsWith JS.isWhiteSpace c4 = false →
  psLine pad c1 c2 c3 c4 =
    padLead pad +:+
    (c1 +:+ padGap1 pad +:+ c2 +:+ padGap2 pad +:+ c3 +:+ padGap3 pad +:+ c4)
    +:+ padTrail pad ∧
  JS.trim (psLine pad c1 c2 c3 c4) =
    c1 +:+ padGap1 pad +:+ c2 +:+ padGap2 pad +:+ c3 +:+ padGap3 pad +:+ c4.
Proof.
  intros (Hlead & _ & _ & _ & Htrail) Hc1 Hs1 Hc4 He4.
  assert (psLine pad c1 c2 c3 c4 =
            padLead pad +:+
            (c1 +:+ padGap1 pad +:+ c2 +:+ padGap2 pad +:+ c3 +:+
             padGap3 pad +:+ c4) +:+ padTrail pad) as Hline.
  { unfold psLine. by rewrite !append_assoc. }
  split; [done|]. rewrite Hline. apply trim_surrounded; try done.
  - destruct c1 as [|c c1]; [done|]. by rewrite append_cons.
  - rewrite <- !append_assoc. by rewrite endsWith_append.
Qed.

Lemma psDataLine_row (pad : Padding) (p : Process) :
  psPrinted (pad, p) →
  lineParser false (Some psHeaders) (psDataLine pad p) =
    (Some psHeaders, Emit (rowOf p)).
Proof.
  intros (Hpad & (Hppid & Hpid & Hstat & Hcommand & Hstart & Hend) & Hdash).
  cbn [fst snd] in *.
  destruct (psLine_trim pad (procPPID p) (procPID p) (procSTAT p)
              (procCOMMAND p) Hpad) as [Hline Htrim];
    [apply Hppid| |apply Hcommand|done|].
  { destruct Hppid as [Hne Hall]. destruct (procPPID p) as [|c s]; [done|].
    cbn in Hall. apply andb_true_iff in Hall as [Hc _].
    by apply digit_not_space. }
  unfold psDataLine in *. rewrite Hline in Hdash.
  apply includes_inside in Hdash.
  unfold rowOf.
  apply (lineParser_posix_row _ (procPPID p) (procPID p)
           (procSTAT p) (procCOMMAND p)); rewrite Htrim; [|done].
  destruct Hpad as (_ & Hg1 & Hg2 & Hg3 & _).
  by exists (padGap1 pad), (padGap2 pad), (padGap3 pad).
Qed.

Lemma psHeaderLine_headers (pad : Padding) (comm : string) :
  padded pad → comm = "COMMAND" ∨ comm = "COMM" →
  lineParser false None (psHeaderLine pad comm) = (Some psHeaders, Drop).
Proof.
  intros Hpad Hcomm.
  assert (run JS.notWhiteSpace comm ∧ endsWith JS.isWhiteSpace comm = false ∧
          JS.all (λ c, negb (Ascii.eqb c "-")) comm = true ∧
          normalizeHeader comm = "COMMAND") as (Hrun & Hend & Hnodash & Hnorm).
  { by destruct Hcomm as [-> | ->]. }
  destruct (psLine_trim pad "PPID" "PID" "STAT" comm Hpad) as [_ Htrim];
    [done|done|apply Hrun|done|].
  destruct Hpad as (_ & Hg1 & Hg2 & Hg3 & _).
  unfold lineParser, psHeaderLine. rewrite Htrim.
  rewrite no_dash_includes.
  - change ("PPID" +:+ padGap1 pad +:+ "PID" +:+ padGap2 pad +:+ "STAT" +:+
            padGap3 pad +:+ comm)
      with (joinTokens [("PPID", padGap1 pad); ("PID", padGap2 pad);
                        ("STAT", padGap3 pad)] comm).
    unfold JS.splitWhiteSpace. rewrite splitFrom_joinTokens; [|..|done].
    + cbn. by rewrite Hnorm.
    + repeat (apply Forall_cons; split; [by split|]). by apply Forall_nil.
  - rewrite !all_append, Hnodash.
    rewrite (all_impl _ _ (padGap1 pad) space_not_dash (proj2 Hg1)).
    rewrite (all_impl _ _ (padGap2 pad) space_not_dash (proj2 Hg2)).
    by rewrite (all_impl _ _ (padGap3 pad) space_not_dash (proj2 Hg3)).
Qed.

(** X11: a POSIX listing read back: from the header line (PPID, PID,
    STAT and COMMAND or COMM) followed by one line for each process, the
    columns of every line padded with any white space before, between and
    after them (digits for PPID and PID, a status without white space, a
    command without line terminator or white space at its ends, no run
    of four dashes in the line), the line parser gives the rows of the
    processes, in order, and the query the scan of those rows. *)
Theorem posix_listing_round_trip
    (pid : string) (header : Padding) (comm : string)
    (table : list (Padding * Process)) :
  padded header → comm = "COMMAND" ∨ comm = "COMM" →
  Forall psPrinted table →
  mapLines false None
    (psHeaderLine header comm :: ((λ e, psDataLine e.1 e.2) <$> table)) =
    inl ((λ e, rowOf e.2) <$> table) ∧
  pipeline false pid
    (psHeaderLine header comm :: ((λ e, psDataLine e.1 e.2) <$> table)) =
    Results (treeBuilder pid ((λ e, rowOf e.2) <$> table)).
Proof.
  intros Hheader Hcomm Htable.
  assert (mapLines false None
            (psHeaderLine header comm :: ((λ e, psDataLine e.1 e.2) <$> table)) =
            inl ((λ e, rowOf e.2) <$> table)) as Hrows.
  { cbn [mapLines]. rewrite psHeaderLine_headers by done.
    apply mapLines_emit_all, Forall2_fmap, Forall_Forall2_diag.
    eapply Forall_impl; [done|]. intros [pad p] Hp. by apply psDataLine_row. }
  split; [done|]. unfold pipeline. by rewrite Hrows.
Qed.

Lemma posix_listing_round_trip_witness :
  let header := mkPadding "  " "   " " " " " "" in
  let table :=
    [(mkPadding "     " "     " " " "   " "", mkProcess "0" "1" "Ss" "/sbin/init");
     (mkPadding "     " "   " " " "    " "", mkProcess "1" "100" "S" "sh -c x");
     (mkPadding "   " "   " " " "   " "", mkProcess "100" "200" "R+" "node")] in
  padded header ∧ ("COMMAND" = "COMMAND" ∨ "COMMAND" = "COMM") ∧
  Forall psPrinted table ∧
  psHeaderLine header "COMMAND" :: ((λ e, psDataLine e.1 e.2) <$> table) =
    ["  PPID   PID STAT COMMAND"; "     0     1 Ss   /sbin/init";
     "     1   100 S    sh -c x"; "   100   200 R+   node"] ∧
  pipeline false "1"
    (psHeaderLine header "COMMAND" :: ((λ e, psDataLine e.1 e.2) <$> table)) =
    Results (treeBuilder "1" ((λ e, rowOf e.2) <$> table)).
Proof.
  intros header table.
  assert (padded header) as H1.
  { repeat (split; try discriminate; try reflexivity). }
  assert ("COMMAND" = "COMMAND" ∨ "COMMAND" = "COMM") as H2 by (by left).
  assert (Forall psPrinted table) as H3.
  { repeat (apply Forall_cons; split;
              [repeat (split; try discriminate; try reflexivity)|]).
    by apply Forall_nil. }
  split; [exact H1|]. split; [exact H2|]. split; [exact H3|].
  split; [reflexivity|].
  exact (proj2 (posix_listing_round_trip "1" header "COMMAND" table H1 H2 H3)).
Defined.
